(** * tidb-operator, package [controller]: the TiDB member status client
      ([tidb_control.go]) and the TiKVGroup status updater
      ([UpdateTiKVGroup]).

    Shallow embedding of the two Go files and the properties stated about
    them.  Go pointers to API objects are locations of a heap ([gmap]),
    calls to collaborators (the typed client, the lister, the secret store,
    the HTTP transport) are oracles whose calls are recorded in the world,
    and every function of the source is a computation in a small
    state-and-panic monad. *)

From Stdlib Require Import ZArith QArith String Ascii List Lia.
From Stdlib Require Import DecimalString DecimalZ DecimalPos.
From stdpp Require Import base gmap strings list.

Open Scope Z_scope.

(** ** A state monad with panics

    [M W A] is a Go computation over a world [W] returning [A]; [Panic] is a
    nil or dangling pointer dereference. *)

Inductive Res (W A : Type) : Type :=
| Ok (a : A) (w : W)
| Panic.
Arguments Ok {W A} a w.
Arguments Panic {W A}.

Definition M (W A : Type) : Type := W -> Res W A.

Definition ret {W A : Type} (a : A) : M W A := fun w => Ok a w.

Definition bind {W A B : Type} (m : M W A) (k : A -> M W B) : M W B :=
  fun w => match m w with
           | Ok a w' => k a w'
           | Panic => Panic
           end.

Definition gets {W A : Type} (f : W -> A) : M W A := fun w => Ok (f w) w.
Definition modify {W : Type} (f : W -> W) : M W unit := fun w => Ok tt (f w).
Definition panic {W A : Type} : M W A := fun _ => Panic.

Notation "x <- y ; z" := (bind y (fun x => z))
  (at level 20, y at level 100, z at level 200, only parsing).
Notation "' x <- y ; z" := (bind y (fun x => z))
  (at level 20, x pattern, y at level 100, z at level 200, only parsing).

(** ** Go errors

    An error is an API status error with its reason (what
    [errors.IsConflict] inspects), a plain [errorString] made by
    [fmt.Errorf], or the sentinel [wait.ErrWaitTimeout].  Go compares an
    error with the sentinel by identity, so the sentinel is a value of its
    own and no [ErrorString]: an error made elsewhere with the same message
    is another error. *)

Inductive StatusReason :=
| StatusReasonUnknown
| StatusReasonNotFound
| StatusReasonConflict
| StatusReasonInvalid
| StatusReasonServerTimeout.

Inductive error :=
| StatusError (reason : StatusReason) (message : string)
| ErrorString (message : string)
| ErrWaitTimeout.

Definition Error (e : error) : string :=
  match e with
  | StatusError _ m => m
  | ErrorString m => m
  | ErrWaitTimeout => "timed out waiting for the condition"
  end.

(** [err == wait.ErrWaitTimeout]. *)
Definition isErrWaitTimeout (e : error) : bool :=
  match e with
  | ErrWaitTimeout => true
  | _ => false
  end.

Definition IsConflict (e : error) : bool :=
  match e with
  | StatusError StatusReasonConflict _ => true
  | _ => false
  end.

(** [%d] and [%v] of an integer. *)
Definition itoa (z : Z) : string := NilZero.string_of_int (Z.to_int z).

(** A string as the list of its characters. *)
Abbreviation chars := list_ascii_of_string.

(** The characters of a decimal numeral. *)
Definition isNumeral (c : ascii) : bool :=
  match c with
  | "-" | "0" | "1" | "2" | "3" | "4" | "5" | "6" | "7" | "8" | "9" => true
  | _ => false
  end%char.

(** [metav1.ObjectMeta], the fields the package reads. *)
Record ObjectMeta := {
  Namespace : string;
  Name : string;
  ResourceVersion : string
}.

(** ** k8s.io/apimachinery wait and k8s.io/client-go retry *)

Module retry.

Record Backoff := {
  Duration : Z;      (* nanoseconds *)
  Factor : Q;
  Jitter : Q;
  Steps : nat
}.

(** [retry.DefaultRetry]. *)
Definition DefaultRetry : Backoff :=
  {| Duration := 10 * 1000000; Factor := 1%Q; Jitter := (1 # 10)%Q; Steps := 5 |}.

Section Loop.
Context {W L : Type}.

(** [wait.ExponentialBackoff]: at most [Steps] calls of the condition; the
    sleep between two calls is not part of the state.  [L] is the state of
    the variables the condition closure captures.  The error of the
    condition is returned as it is; when the steps are used up the result is
    [wait.ErrWaitTimeout]. *)
Fixpoint ExponentialBackoff (steps : nat)
    (condition : L -> M W (L * bool * option error)) (l : L)
    : M W (L * option error) :=
  match steps with
  | O => ret (l, Some ErrWaitTimeout)
  | S steps' =>
      '(l', ok, err) <- condition l;
      match err with
      | Some e => ret (l', Some e)
      | None =>
          if ok then ret (l', None)
          else ExponentialBackoff steps' condition l'
      end
  end.

End Loop.

Section Retry.
Context {W L : Type}.

(** The condition [RetryOnConflict] hands to [ExponentialBackoff]; its own
    captured variable is [lastConflictErr]. *)
Definition conflictCondition (fn : L -> M W (L * option error))
    (st : L * option error) : M W ((L * option error) * bool * option error) :=
  '(l', err) <- fn st.1;
  match err with
  | None => ret ((l', st.2), true, None)
  | Some e =>
      if IsConflict e then ret ((l', Some e), false, None)
      else ret ((l', st.2), false, Some e)
  end.

(** [if err == wait.ErrWaitTimeout { err = lastConflictErr }]: the test is
    on the error [ExponentialBackoff] returned, whether the loop ran out of
    steps or the closure itself returned the sentinel. *)
Definition RetryOnConflict (backoff : Backoff)
    (fn : L -> M W (L * option error)) (l : L) : M W (L * option error) :=
  '(st, err) <- ExponentialBackoff (Steps backoff) (conflictCondition fn) (l, None);
  match err with
  | Some e => if isErrWaitTimeout e then ret (st.1, st.2) else ret (st.1, Some e)
  | None => ret (st.1, None)
  end.

End Retry.

End retry.

(** ** The TiKVGroup status updater ([UpdateTiKVGroup]) *)

Module TiKVGroupControl.

Import retry.

(** A Go pointer to an API object. *)
Definition loc := nat.

Section Updater.

(** [v1alpha1.TiKVGroupSpec] and [v1alpha1.TiKVGroupStatus] are declared in
    package [v1alpha1]; the updater only copies them. *)
Variables TiKVGroupSpec TiKVGroupStatus : Type.

Record TiKVGroup := {
  Meta : ObjectMeta;
  Spec : TiKVGroupSpec;
  Status : TiKVGroupStatus
}.

Definition GetNamespace (tg : TiKVGroup) : string := Namespace (Meta tg).
Definition GetName (tg : TiKVGroup) : string := Name (Meta tg).

(** [tg.Status = *status]. *)
Definition withStatus (tg : TiKVGroup) (status : TiKVGroupStatus) : TiKVGroup :=
  {| Meta := Meta tg; Spec := Spec tg; Status := status |}.

Inductive LogEntry :=
| Infof (msg : string)
| Warningf (msg : string)
| HandleError (err : error).

(** The world: the heap of API objects, the writes the store has received
    (namespace and object, oldest first), the lister lookups made, and the
    log. *)
Record World := {
  heap : gmap loc TiKVGroup;
  updates : list (string * TiKVGroup);
  lookups : list (string * string);
  logs : list LogEntry
}.

(** [realTiKVGroupControl]: the typed client and the lister, as oracles.
    [cli i ns obj] answers the [i]-th [Update] (counted from 0) of [obj] in
    namespace [ns] with the result object and the error.  With an error the
    client may hand back a nil pointer instead of a result object (the
    generated fake clientset does, the generated REST client does not):
    [nilResult i ns obj] tells which.  An accepted write hands back the
    object.  [tgLister j ns name] answers the [j]-th [Get] with a pointer
    into the shared cache or an error.  The event recorder is not used. *)
Record realTiKVGroupControl := {
  cli : nat -> string -> TiKVGroup -> TiKVGroup * option error;
  nilResult : nat -> string -> TiKVGroup -> bool;
  tgLister : nat -> string -> string -> loc + error
}.

Abbreviation G := (M World).

Definition setHeap (h : gmap loc TiKVGroup) (w : World) : World :=
  {| heap := h; updates := updates w; lookups := lookups w; logs := logs w |}.
Definition addUpdate (u : string * TiKVGroup) (w : World) : World :=
  {| heap := heap w; updates := updates w ++ [u]; lookups := lookups w;
     logs := logs w |}.
Definition addLookup (k : string * string) (w : World) : World :=
  {| heap := heap w; updates := updates w; lookups := lookups w ++ [k];
     logs := logs w |}.
Definition addLog (e : LogEntry) (w : World) : World :=
  {| heap := heap w; updates := updates w; lookups := lookups w;
     logs := logs w ++ [e] |}.

(** Pointer dereference; a pointer outside the heap is a panic. *)
Definition load (p : loc) : G TiKVGroup :=
  fun w => match heap w !! p with
           | Some v => Ok v w
           | None => Panic
           end.

(** Allocation of a new object. *)
Definition alloc (v : TiKVGroup) : G loc :=
  fun w => let p := fresh (dom (heap w)) in Ok p (setHeap (<[p := v]> (heap w)) w).

(** Assignment through a pointer: [p.Status = status]. *)
Definition setStatus (p : loc) (status : TiKVGroupStatus) : G unit :=
  fun w => match heap w !! p with
           | Some v => Ok tt (setHeap (<[p := withStatus v status]> (heap w)) w)
           | None => Panic
           end.

(** [in.DeepCopy()]. *)
Definition DeepCopy (p : loc) : G loc :=
  v <- load p; alloc v.

Definition log (e : LogEntry) : G unit := modify (addLog e).

(** [rtc.cli.PingcapV1alpha1().TiKVGroups(ns).Update(tg)]: the store sees the
    object [tg] points to; the result is a pointer to the result object, or
    nil ([None]) when the client hands back none with its error. *)
Definition Update (rtc : realTiKVGroupControl) (ns : string) (tg : loc)
    : G (option loc * option error) :=
  v <- load tg;
  i <- gets (fun w => length (updates w));
  _ <- modify (addUpdate (ns, v));
  match (cli rtc i ns v).2 with
  | Some err =>
      if nilResult rtc i ns v then ret (None, Some err)
      else p <- alloc (cli rtc i ns v).1; ret (Some p, Some err)
  | None =>
      p <- alloc (cli rtc i ns v).1; ret (Some p, None)
  end.

(** [rtc.tgLister.TiKVGroups(ns).Get(name)]. *)
Definition Get (rtc : realTiKVGroupControl) (ns name : string) : G (loc + error) :=
  j <- gets (fun w => length (lookups w));
  _ <- modify (addLookup (ns, name));
  ret (tgLister rtc j ns name).

(** The variables the closure captures and assigns: [tg] and [updateTg]
    ([None] is the nil pointer). *)
Definition Locals : Type := loc * option loc.

(** The three messages of the closure. *)
Definition infoMsg (ns name : string) : string :=
  "TiKVGroup: [" +:+ ns +:+ "/" +:+ name +:+ "] updated successfully".
Definition warnMsg (ns name : string) (e : error) : string :=
  "failed to update TiKVGroup: [" +:+ ns +:+ "/" +:+ name +:+ "], error: "
  +:+ Error e.
Definition listerMsg (ns name : string) (err : error) : string :=
  "error getting updated TiKVGroup " +:+ ns +:+ "/" +:+ name
  +:+ " from lister: " +:+ Error err.

(** The closure passed to [retry.RetryOnConflict]. *)
Definition updateOnce (rtc : realTiKVGroupControl) (ns name : string)
    (status : TiKVGroupStatus) (l : Locals) : G (Locals * option error) :=
  let tg := l.1 in
  '(updateTg, updateErr) <- Update rtc ns tg;
  match updateErr with
  | None =>
      _ <- log (Infof (infoMsg ns name));
      ret ((tg, updateTg), None)
  | Some e =>
      _ <- log (Warningf (warnMsg ns name e));
      r <- Get rtc ns name;
      match r with
      | inl updated =>
          (* make a copy so we don't mutate the shared cache *)
          tg' <- DeepCopy updated;
          _ <- setStatus tg' status;
          ret ((tg', updateTg), Some e)
      | inr err =>
          _ <- log (HandleError (ErrorString (listerMsg ns name err)));
          ret ((tg, updateTg), Some e)
      end
  end.

(** [UpdateTiKVGroup].  [newStatus] and [oldStatus] are pointers that may be
    nil.  Statuses are values here, so [status := tg.Status.DeepCopy()] is
    the status of the object [tg] points to at the call. *)
Definition UpdateTiKVGroup (rtc : realTiKVGroupControl) (tg : loc)
    (newStatus oldStatus : option TiKVGroupStatus)
    : G (option loc * option error) :=
  v <- load tg;
  let ns := GetNamespace v in
  let name := GetName v in
  let status := Status v in
  '(l, err) <- RetryOnConflict DefaultRetry (updateOnce rtc ns name status) (tg, None);
  ret (l.2, err).

(** *** Vocabulary of the statements

    [fetched rtc h0 lb ns name i] is the object the cache held at the latest
    of the first [i] lister lookups that succeeded ([lb] lookups were made
    before the call, [h0] is the heap at the call); [working] is the object
    the [i]-th write attempt sends, and [response] the store's answer to
    it (the writes made before the call are counted in). *)
Fixpoint fetched (rtc : realTiKVGroupControl) (h0 : gmap loc TiKVGroup)
    (lb : nat) (ns name : string) (i : nat) : option TiKVGroup :=
  match i with
  | O => None
  | S j =>
      match tgLister rtc (lb + j)%nat ns name with
      | inl p =>
          match h0 !! p with
          | Some c => Some c
          | None => fetched rtc h0 lb ns name j
          end
      | inr _ => fetched rtc h0 lb ns name j
      end
  end.

Definition working (rtc : realTiKVGroupControl) (w : World) (v0 : TiKVGroup)
    (i : nat) : TiKVGroup :=
  withStatus
    (default v0 (fetched rtc (heap w) (length (lookups w))
                         (GetNamespace v0) (GetName v0) i))
    (Status v0).

Definition response (rtc : realTiKVGroupControl) (w : World) (v0 : TiKVGroup)
    (i : nat) : TiKVGroup * option error :=
  cli rtc (length (updates w) + i)%nat (GetNamespace v0) (working rtc w v0 i).

Definition conflicted (r : TiKVGroup * option error) : bool :=
  match r.2 with
  | Some e => IsConflict e
  | None => false
  end.

(** Every pointer the lister hands out points into the heap. *)
Definition listerValid (rtc : realTiKVGroupControl) (h0 : gmap loc TiKVGroup)
    (ns name : string) : Prop :=
  forall j p, tgLister rtc j ns name = inl p -> is_Some (h0 !! p).

(** The writes a call added to the store's log. *)
Definition writesSince (w w' : World) : list (string * TiKVGroup) :=
  drop (length (updates w)) (updates w').

(** The statuses of the objects a call wrote, oldest first. *)
Definition writtenStatuses (w : World)
    (r : Res World (option loc * option error)) : list TiKVGroupStatus :=
  match r with
  | Ok _ w' => map (fun u => Status u.2) (writesSince w w')
  | Panic => []
  end.

(** Whether the client hands back a nil pointer, and not a result object,
    for the [i]-th write of a call. *)
Definition nilAnswer (rtc : realTiKVGroupControl) (w : World) (v0 : TiKVGroup)
    (i : nat) : bool :=
  match (response rtc w v0 i).2 with
  | Some _ =>
      nilResult rtc (length (updates w) + i)%nat (GetNamespace v0)
                (working rtc w v0 i)
  | None => false
  end.

(** What an [Update] handed back: nil, or a pointer to an object of the heap
    [h] that holds the answer [r]. *)
Definition handedBack (h : gmap loc TiKVGroup) (r : TiKVGroup) (nil : bool)
    (up : option loc) : Prop :=
  if nil then up = None
  else exists p, up = Some p /\ h !! p = Some r.

(** What the [i]-th attempt of a call logs. *)
Definition attemptLog (rtc : realTiKVGroupControl) (w : World) (v0 : TiKVGroup)
    (i : nat) : list LogEntry :=
  match (response rtc w v0 i).2 with
  | None => [Infof (infoMsg (GetNamespace v0) (GetName v0))]
  | Some e =>
      Warningf (warnMsg (GetNamespace v0) (GetName v0) e)
      :: match tgLister rtc (length (lookups w) + i)%nat
                 (GetNamespace v0) (GetName v0) with
         | inl _ => []
         | inr err =>
             [HandleError
                (ErrorString (listerMsg (GetNamespace v0) (GetName v0) err))]
         end
  end.

(** The log entries a call added. *)
Definition logsSince (w w' : World) : list LogEntry :=
  drop (length (logs w)) (logs w').

(** The error [RetryOnConflict] makes of a call that ended after [m]
    writes: the answer to the last write, but for the sentinel
    [wait.ErrWaitTimeout] the error of the write before it (a conflict), nil
    when there is none. *)
Definition returnedError (rtc : realTiKVGroupControl) (w : World)
    (v0 : TiKVGroup) (m : nat) : option error :=
  match (response rtc w v0 (pred m)).2 with
  | None => None
  | Some e =>
      if isErrWaitTimeout e then
        match pred m with
        | O => None
        | S j => (response rtc w v0 j).2
        end
      else Some e
  end.

(** The first [m] writes of a call on [v0] in world [w0]. *)
Definition sent (rtc : realTiKVGroupControl) (w0 : World) (v0 : TiKVGroup)
    (m : nat) : list (string * TiKVGroup) :=
  map (fun k => (GetNamespace v0, working rtc w0 v0 k)) (seq 0 m).

(** The state of the loop of a call on [v0] in world [w0] when [i] attempts
    have ended in a conflict: the heap has only grown, the working pointer
    holds the [i]-th working object, [i] writes and [i] lookups were made
    and logged, and the last conflict error is the one of attempt [i-1]. *)
Definition AtAttempt (rtc : realTiKVGroupControl) (w0 : World) (v0 : TiKVGroup)
    (i : nat) (st : Locals * option error) (w : World) : Prop :=
  heap w0 ⊆ heap w /\
  heap w !! st.1.1 = Some (working rtc w0 v0 i) /\
  updates w = updates w0 ++ sent rtc w0 v0 i /\
  lookups w = lookups w0 ++ replicate i (GetNamespace v0, GetName v0) /\
  logs w = logs w0 ++ flat_map (attemptLog rtc w0 v0) (seq 0 i) /\
  st.2 = match i with
         | O => None
         | S j => (response rtc w0 v0 j).2
         end.

End Updater.

Arguments Meta {_ _} _.
Arguments Spec {_ _} _.
Arguments Status {_ _} _.
Arguments GetNamespace {_ _} _.
Arguments GetName {_ _} _.
Arguments withStatus {_ _} _ _.
Arguments heap {_ _} _.
Arguments updates {_ _} _.
Arguments lookups {_ _} _.
Arguments logs {_ _} _.
Arguments cli {_ _} _ _ _ _.
Arguments nilResult {_ _} _ _ _ _.
Arguments tgLister {_ _} _ _ _ _.
Arguments setHeap {_ _} _ _.
Arguments addUpdate {_ _} _ _.
Arguments addLookup {_ _} _ _.
Arguments addLog {_ _} _ _.
Arguments load {_ _} _ _.
Arguments alloc {_ _} _ _.
Arguments setStatus {_ _} _ _ _.
Arguments DeepCopy {_ _} _ _.
Arguments log {_ _} _ _.
Arguments Update {_ _} _ _ _ _.
Arguments Get {_ _} _ _ _ _.
Arguments updateOnce {_ _} _ _ _ _ _ _.
Arguments UpdateTiKVGroup {_ _} _ _ _ _ _.
Arguments fetched {_ _} _ _ _ _ _ _.
Arguments working {_ _} _ _ _ _.
Arguments response {_ _} _ _ _ _.
Arguments conflicted {_ _} _.
Arguments listerValid {_ _} _ _ _ _.
Arguments writesSince {_ _} _ _.
Arguments writtenStatuses {_ _} _ _.
Arguments nilAnswer {_ _} _ _ _ _.
Arguments handedBack {_ _} _ _ _ _.
Arguments attemptLog {_ _} _ _ _ _.
Arguments logsSince {_ _} _ _.
Arguments returnedError {_ _} _ _ _ _.
Arguments sent {_ _} _ _ _ _.
Arguments AtAttempt {_ _} _ _ _ _ _ _.

(** *** A small scenario

    Specs and statuses are numbers.  The caller holds the object [demoLive]
    (spec 10, status 2) at pointer 0; the cache holds [demoCached] (spec 11,
    status 3) at pointer 1.  [demoRtc n] is a store that answers the first
    [n] writes with a conflict and accepts the next one, with a lister that
    always finds the cached object; [demoDeaf n] is the same store with a
    lister that always fails; [demoBroken n] answers the write after [n]
    conflicts with a server timeout, and [demoStuck n] answers it with the
    sentinel [wait.ErrWaitTimeout].  These clients hand back a result object
    with every answer; [demoBare n] is [demoRtc n] with a client that hands
    back nil with an error. *)
Definition demoLive : TiKVGroup nat nat :=
  {| Meta := {| Namespace := "default"; Name := "tikv"; ResourceVersion := "1" |};
     Spec := 10%nat; Status := 2%nat |}.
Definition demoCached : TiKVGroup nat nat :=
  {| Meta := {| Namespace := "default"; Name := "tikv"; ResourceVersion := "2" |};
     Spec := 11%nat; Status := 3%nat |}.
Definition demoWorld : World nat nat :=
  {| heap := <[1%nat := demoCached]> (<[0%nat := demoLive]> ∅);
     updates := []; lookups := []; logs := [] |}.
Definition demoConflict : error :=
  StatusError StatusReasonConflict
    "Operation cannot be fulfilled: the object has been modified".
Definition demoTimeout : error :=
  StatusError StatusReasonServerTimeout "the server timed out".
Definition demoNotFound : error :=
  StatusError StatusReasonNotFound "tikvgroup not found".
Definition demoEmpty : TiKVGroup nat nat :=
  {| Meta := {| Namespace := EmptyString; Name := EmptyString;
                ResourceVersion := EmptyString |};
     Spec := 0%nat; Status := 0%nat |}.
Definition demoStore (n : nat) (final : option error) (i : nat) (ns : string)
    (obj : TiKVGroup nat nat) : TiKVGroup nat nat * option error :=
  if (i <? n)%nat then (demoEmpty, Some demoConflict)
  else match final with
       | None => (obj, None)
       | Some e => (demoEmpty, Some e)
       end.
Definition demoRtc (n : nat) : realTiKVGroupControl nat nat :=
  {| cli := demoStore n None; nilResult := fun _ _ _ => false;
     tgLister := fun _ _ _ => inl 1%nat |}.
Definition demoDeaf (n : nat) : realTiKVGroupControl nat nat :=
  {| cli := demoStore n None; nilResult := fun _ _ _ => false;
     tgLister := fun _ _ _ => inr demoNotFound |}.
Definition demoBroken (n : nat) : realTiKVGroupControl nat nat :=
  {| cli := demoStore n (Some demoTimeout); nilResult := fun _ _ _ => false;
     tgLister := fun _ _ _ => inl 1%nat |}.
Definition demoStuck (n : nat) : realTiKVGroupControl nat nat :=
  {| cli := demoStore n (Some ErrWaitTimeout); nilResult := fun _ _ _ => false;
     tgLister := fun _ _ _ => inl 1%nat |}.
Definition demoBare (n : nat) : realTiKVGroupControl nat nat :=
  {| cli := demoStore n None; nilResult := fun _ _ _ => true;
     tgLister := fun _ _ _ => inl 1%nat |}.

End TiKVGroupControl.

(** ** The TiDB member status client ([defaultTiDBControl]) *)

Module TiDBControl.

Abbreviation bytes := (list Byte.byte).

(** [v1.TLSCertKey], [v1.TLSPrivateKeyKey], [v1.ServiceAccountRootCAKey]. *)
Definition TLSCertKey : string := "tls.crt".
Definition TLSPrivateKeyKey : string := "tls.key".
Definition ServiceAccountRootCAKey : string := "ca.crt".

(** [timeout = 5 * time.Second], in nanoseconds. *)
Definition timeout : Z := 5 * 1000000000.

Record DBInfo := { IsOwner : bool }.

Record TLSCluster := { Enabled : bool }.

Record TidbClusterSpec := { TLSClusterSpec : option TLSCluster }.

Record TidbCluster := {
  tcMeta : ObjectMeta;
  tcSpec : TidbClusterSpec
}.

Definition GetName (tc : TidbCluster) : string := Name (tcMeta tc).
Definition GetNamespace (tc : TidbCluster) : string := Namespace (tcMeta tc).

(** Modelled from the spec: [tc.IsTLSClusterEnabled] of package [v1alpha1],
    the TLS posture of the cluster ("if the cluster does not require mutual
    TLS ... if it does"). *)
Definition IsTLSClusterEnabled (tc : TidbCluster) : bool :=
  match TLSClusterSpec (tcSpec tc) with
  | Some t => Enabled t
  | None => false
  end.

(** Modelled from the spec: [tc.Scheme] of package [v1alpha1], "[scheme]
    reflects the TLS posture"; TLS disabled gives [http]. *)
Definition Scheme (tc : TidbCluster) : string :=
  if IsTLSClusterEnabled tc then "https" else "http".

(** Modelled from the spec: [TiDBMemberName] and [TiDBPeerMemberName] of
    [controller_utils.go], read off the address
    [http://demo-tidb-1.demo-tidb-peer.default:10080] of cluster [demo]. *)
Definition TiDBMemberName (clusterName : string) : string :=
  clusterName +:+ "-tidb".
Definition TiDBPeerMemberName (clusterName : string) : string :=
  clusterName +:+ "-tidb-peer".

(** What separates the cluster name from the ordinal in a host name. *)
Definition tidbSep : list ascii := chars "-tidb-".

Record Secret := { Data : gmap string bytes }.

Record Request := { Method : string; URL : string }.

(** What the remote member sends back: the status code, the body and, when
    reading the body breaks off, the read error. *)
Record WireResponse := {
  wireStatus : Z;
  wireBody : bytes;
  wireReadErr : option error
}.

(** An open response body: what is on the wire and what the client did with
    it. *)
Record BodyState := {
  content : bytes;
  readErr : option error;
  drained : bool;
  closed : bool
}.

(** [http.Response]: the body is a handle into [bodies]. *)
Record Response := { StatusCode : Z; Body : nat }.

(** The text before the first [%] of a format and the rest from it on. *)
Fixpoint splitVerb (format : string) : string * string :=
  match format with
  | EmptyString => (EmptyString, EmptyString)
  | String c rest =>
      if Ascii.eqb c "%" then (EmptyString, format)
      else let '(lit, tl) := splitVerb rest in (String c lit, tl)
  end.

(** A Kubernetes namespace is a DNS label: it has no dot. *)
Fixpoint dotFree (s : string) : bool :=
  match s with
  | EmptyString => true
  | String c rest => negb (Ascii.eqb c ".") && dotFree rest
  end.

Fixpoint percentFree (s : string) : bool :=
  match s with
  | EmptyString => true
  | String c rest => negb (Ascii.eqb c "%") && percentFree rest
  end.

(** The cluster of the scenarios: [demo] in namespace [default]. *)
Definition demoCluster (tls : bool) : TidbCluster :=
  {| tcMeta := {| Namespace := "default"; Name := "demo"; ResourceVersion := "7" |};
     tcSpec := {| TLSClusterSpec := if tls then Some {| Enabled := true |} else None |} |}.

(** Library types and functions the client is written against:
    [tls.Certificate] and [tls.X509KeyPair], [x509.CertPool], the URL and
    method check of [http.NewRequest], [json.Unmarshal] at the two result
    types, [config.Config], what [fmt] prints for a format from its first
    verb on when it is given no operand, and
    [util.ClusterClientTLSSecretName]. *)
Record Library := {
  Certificate : Type;
  CertPool : Type;
  Config : Type;
  X509KeyPair : bytes -> bytes -> Certificate + error;
  NewCertPool : CertPool;
  AppendCertsFromPEM : CertPool -> bytes -> CertPool;
  newRequestErr : string -> string -> option error;
  UnmarshalDBInfo : bytes -> DBInfo + error;
  UnmarshalConfig : bytes -> Config + error;
  fmtVerbs : string -> string;
  ClusterClientTLSSecretName : string -> string
}.

Section Client.

Variable lib : Library.

Record TLSConfig := {
  RootCAs : CertPool lib;
  Certificates : list (Certificate lib)
}.

Record HTTPClient := {
  Timeout : Z;
  Transport : option TLSConfig
}.

(** The world: the network (what a client gets for a request), the requests
    sent, the secrets fetched (namespace and name), and the response bodies
    opened so far. *)
Record World := {
  network : HTTPClient -> Request -> WireResponse + error;
  requests : list Request;
  secretGets : list (string * string);
  bodies : list BodyState
}.

Record defaultTiDBControl := {
  kubeCli : string -> string -> Secret + error;
  (* for unit test only *)
  testURL : string
}.

Definition NewDefaultTiDBControl (kube : string -> string -> Secret + error)
    : defaultTiDBControl :=
  {| kubeCli := kube; testURL := EmptyString |}.

Abbreviation C := (M World).

(** [fmt.Errorf(format)] with no operand: the text before the first [%] is
    copied, the rest goes through the verb machinery. *)
Definition Errorf0 (format : string) : error :=
  let '(lit, rest) := splitVerb format in
  ErrorString (match rest with
               | EmptyString => lit
               | _ => lit +:+ fmtVerbs lib rest
               end).

(** [http.NewRequest(method, url, nil)]. *)
Definition NewRequest (method url : string) : Request + error :=
  match newRequestErr lib method url with
  | Some err => inr err
  | None => inl {| Method := method; URL := url |}
  end.

(** [httpClient.Do(req)]: the request goes out; a response opens a body. *)
Definition Do (httpClient : HTTPClient) (req : Request)
    : C (option Response * option error) :=
  fun w =>
    let sent := requests w ++ [req] in
    match network w httpClient req with
    | inr err =>
        Ok (None, Some err)
           {| network := network w; requests := sent;
              secretGets := secretGets w; bodies := bodies w |}
    | inl r =>
        Ok (Some {| StatusCode := wireStatus r; Body := length (bodies w) |}, None)
           {| network := network w; requests := sent;
              secretGets := secretGets w;
              bodies := bodies w ++ [{| content := wireBody r;
                                        readErr := wireReadErr r;
                                        drained := false; closed := false |}] |}
    end.

(** [httpClient.Get(url)]. *)
Definition ClientGet (httpClient : HTTPClient) (url : string)
    : C (option Response * option error) :=
  match NewRequest "GET" url with
  | inr err => ret (None, Some err)
  | inl req => Do httpClient req
  end.

Definition setBody (b : nat) (st : BodyState) (w : World) : World :=
  {| network := network w; requests := requests w;
     secretGets := secretGets w; bodies := <[b := st]> (bodies w) |}.

(** [ioutil.ReadAll(res.Body)]: reads to the end of the body. *)
Definition ReadAll (b : nat) : C (bytes * option error) :=
  fun w =>
    match bodies w !! b with
    | None => Panic
    | Some st =>
        if closed st then
          Ok ([], Some (ErrorString "http: read on closed response body")) w
        else
          match readErr st with
          | Some err => Ok ([], Some err) w
          | None =>
              Ok (content st, None)
                 (setBody b {| content := content st; readErr := readErr st;
                               drained := true; closed := closed st |} w)
          end
    end.

(** Modelled from the spec: [httputil.DeferClose] of package [pkg/util/http],
    the "scoped resource-release pattern" through which the "drain-and-close"
    of the response body happens: the body is drained and closed. *)
Definition DeferClose (b : nat) : C unit :=
  fun w =>
    match bodies w !! b with
    | None => Panic
    | Some st =>
        Ok tt (setBody b {| content := content st; readErr := readErr st;
                            drained := true; closed := true |} w)
    end.

(** [defer d] followed by the rest of the function body [m]. *)
Definition deferring {A : Type} (d : C unit) (m : C A) : C A :=
  r <- m; _ <- d; ret r.

(** [tdc.kubeCli.CoreV1().Secrets(ns).Get(secretName, ...)]. *)
Definition SecretsGet (tdc : defaultTiDBControl) (ns secretName : string)
    : C (Secret + error) :=
  _ <- modify (fun w => {| network := network w; requests := requests w;
                           secretGets := secretGets w ++ [(ns, secretName)];
                           bodies := bodies w |});
  ret (kubeCli tdc ns secretName).

Definition getBodyOK (httpClient : HTTPClient) (apiURL : string)
    : C (bytes * option error) :=
  '(res, err) <- ClientGet httpClient apiURL;
  match err, res with
  | Some e, _ => ret ([], Some e)
  | None, None => panic
  | None, Some res =>
      if 400 <=? StatusCode res then
        ret ([], Some (Errorf0 ("Error response " +:+ itoa (StatusCode res)
                                +:+ " URL " +:+ apiURL)))
      else
        deferring (DeferClose (Body res))
          ('(body, err) <- ReadAll (Body res);
           match err with
           | Some e => ret ([], Some e)
           | None => ret (body, None)
           end)
  end.

Definition getHTTPClient (tdc : defaultTiDBControl) (tc : TidbCluster)
    : C (option HTTPClient * option error) :=
  let httpClient := {| Timeout := timeout; Transport := None |} in
  if negb (IsTLSClusterEnabled tc) then ret (Some httpClient, None)
  else
    let tcName := Name (tcMeta tc) in
    let ns := Namespace (tcMeta tc) in
    let secretName := ClusterClientTLSSecretName lib tcName in
    r <- SecretsGet tdc ns secretName;
    match r with
    | inr err => ret (None, Some err)
    | inl secret =>
        match Data secret !! TLSCertKey, Data secret !! TLSPrivateKeyKey with
        | Some clientCert, Some clientKey =>
            match X509KeyPair lib clientCert clientKey with
            | inr err =>
                ret (None, Some (ErrorString
                  ("unable to load certificates from secret " +:+ ns +:+ "/"
                   +:+ secretName +:+ ": " +:+ Error err)))
            | inl tlsCert =>
                let rootCAs :=
                  AppendCertsFromPEM lib (NewCertPool lib)
                    (default [] (Data secret !! ServiceAccountRootCAKey)) in
                let config := {| RootCAs := rootCAs; Certificates := [tlsCert] |} in
                ret (Some {| Timeout := timeout; Transport := Some config |}, None)
            end
        | _, _ =>
            ret (None, Some (ErrorString
              ("cert or key does not exist in secret " +:+ ns +:+ "/"
               +:+ secretName)))
        end
    end.

Definition getBaseURL (tdc : defaultTiDBControl) (tc : TidbCluster)
    (ordinal : Z) : string :=
  if negb (String.eqb (testURL tdc) EmptyString) then testURL tdc
  else
    let tcName := GetName tc in
    let ns := GetNamespace tc in
    let scheme := Scheme tc in
    let hostName := TiDBMemberName tcName +:+ "-" +:+ itoa ordinal in
    scheme +:+ "://" +:+ hostName +:+ "." +:+ TiDBPeerMemberName tcName
           +:+ "." +:+ ns +:+ ":10080".

Definition GetHealth (tdc : defaultTiDBControl) (tc : TidbCluster)
    (ordinal : Z) : C (bool * option error) :=
  '(httpClient, err) <- getHTTPClient tdc tc;
  match err, httpClient with
  | Some e, _ => ret (false, Some e)
  | None, None => panic
  | None, Some httpClient =>
      let baseURL := getBaseURL tdc tc ordinal in
      let url := baseURL +:+ "/status" in
      '(_, err) <- getBodyOK httpClient url;
      ret (match err with None => true | Some _ => false end, None)
  end.

Definition GetInfo (tdc : defaultTiDBControl) (tc : TidbCluster)
    (ordinal : Z) : C (option DBInfo * option error) :=
  '(httpClient, err) <- getHTTPClient tdc tc;
  match err, httpClient with
  | Some e, _ => ret (None, Some e)
  | None, None => panic
  | None, Some httpClient =>
      let baseURL := getBaseURL tdc tc ordinal in
      let url := baseURL +:+ "/info" in
      match NewRequest "POST" url with
      | inr err => ret (None, Some err)
      | inl req =>
          '(res, err) <- Do httpClient req;
          match err, res with
          | Some e, _ => ret (None, Some e)
          | None, None => panic
          | None, Some res =>
              deferring (DeferClose (Body res))
                (if negb (StatusCode res =? 200) then
                   ret (None, Some (Errorf0 ("Error response "
                          +:+ itoa (StatusCode res) +:+ " URL: " +:+ url)))
                 else
                   '(body, err) <- ReadAll (Body res);
                   match err with
                   | Some e => ret (None, Some e)
                   | None =>
                       match UnmarshalDBInfo lib body with
                       | inr e => ret (None, Some e)
                       | inl info => ret (Some info, None)
                       end
                   end)
          end
      end
  end.

Definition GetSettings (tdc : defaultTiDBControl) (tc : TidbCluster)
    (ordinal : Z) : C (option (Config lib) * option error) :=
  '(httpClient, err) <- getHTTPClient tdc tc;
  match err, httpClient with
  | Some e, _ => ret (None, Some e)
  | None, None => panic
  | None, Some httpClient =>
      let baseURL := getBaseURL tdc tc ordinal in
      let url := baseURL +:+ "/settings" in
      match NewRequest "GET" url with
      | inr err => ret (None, Some err)
      | inl req =>
          '(res, err) <- Do httpClient req;
          match err, res with
          | Some e, _ => ret (None, Some e)
          | None, None => panic
          | None, Some res =>
              deferring (DeferClose (Body res))
                (if negb (StatusCode res =? 200) then
                   ret (None, Some (Errorf0 ("Error response "
                          +:+ itoa (StatusCode res) +:+ " URL: " +:+ url)))
                 else
                   '(body, err) <- ReadAll (Body res);
                   match err with
                   | Some e => ret (None, Some e)
                   | None =>
                       match UnmarshalConfig lib body with
                       | inr e => ret (None, Some e)
                       | inl info => ret (Some info, None)
                       end
                   end)
          end
      end
  end.

(** *** Vocabulary of the statements *)

(** The world after [req] went out and the answer [r] opened a body. *)
Definition opened (r : WireResponse) (req : Request) (w : World) : World :=
  {| network := network w; requests := requests w ++ [req];
     secretGets := secretGets w;
     bodies := bodies w ++ [{| content := wireBody r; readErr := wireReadErr r;
                               drained := false; closed := false |}] |}.

(** The world after [req] went out and no answer came. *)
Definition unanswered (req : Request) (w : World) : World :=
  {| network := network w; requests := requests w ++ [req];
     secretGets := secretGets w; bodies := bodies w |}.

(** The world after the secret [ns/secretName] was fetched. *)
Definition fetchedSecret (ns secretName : string) (w : World) : World :=
  {| network := network w; requests := requests w;
     secretGets := secretGets w ++ [(ns, secretName)]; bodies := bodies w |}.

(** A body that was read to its end and closed. *)
Definition released (st : BodyState) : Prop :=
  drained st = true /\ closed st = true.

(** The error [getHTTPClient] makes when the secret lacks the certificate
    or the key. *)
Definition missingCredential (tc : TidbCluster) : error :=
  ErrorString
    ("cert or key does not exist in secret " +:+ Namespace (tcMeta tc) +:+ "/"
     +:+ ClusterClientTLSSecretName lib (Name (tcMeta tc))).

(** The error [GetInfo] and [GetSettings] make for a status other than 200. *)
Definition statusError (code : Z) (url : string) : error :=
  Errorf0 ("Error response " +:+ itoa code +:+ " URL: " +:+ url).

(** The requests a call with [method] to [url] sends: one, or none when
    [http.NewRequest] rejects it. *)
Definition sentIf (method url : string) : list Request :=
  match newRequestErr lib method url with
  | None => [{| Method := method; URL := url |}]
  | Some _ => []
  end.

(** The error [getHTTPClient] makes when the key pair does not load. *)
Definition keyPairError (tc : TidbCluster) (err : error) : error :=
  ErrorString
    ("unable to load certificates from secret " +:+ Namespace (tcMeta tc) +:+ "/"
     +:+ ClusterClientTLSSecretName lib (Name (tcMeta tc)) +:+ ": " +:+ Error err).

(** What [GetInfo] and [GetSettings] do once they have their client: the
    request with [method] to [url], the status check and the decoding with
    [unmarshal]. *)
Definition fetchJSON {A : Type} (unmarshal : bytes -> A + error)
    (httpClient : HTTPClient) (method url : string)
    : C (option A * option error) :=
  match NewRequest method url with
  | inr err => ret (None, Some err)
  | inl req =>
      '(res, err) <- Do httpClient req;
      match err, res with
      | Some e, _ => ret (None, Some e)
      | None, None => panic
      | None, Some res =>
          deferring (DeferClose (Body res))
            (if negb (StatusCode res =? 200) then
               ret (None, Some (statusError (StatusCode res) url))
             else
               '(body, err) <- ReadAll (Body res);
               match err with
               | Some e => ret (None, Some e)
               | None =>
                   match unmarshal body with
                   | inr e => ret (None, Some e)
                   | inl info => ret (Some info, None)
                   end
               end)
      end
  end.

(** What they return for the answer [r]. *)
Definition fetchResult {A : Type} (unmarshal : bytes -> A + error)
    (r : WireResponse) (url : string) : option A * option error :=
  if negb (wireStatus r =? 200) then (None, Some (statusError (wireStatus r) url))
  else match wireReadErr r with
       | Some e => (None, Some e)
       | None =>
           match unmarshal (wireBody r) with
           | inr e => (None, Some e)
           | inl info => (Some info, None)
           end
       end.

End Client.

Arguments RootCAs {_} _.
Arguments Certificates {_} _.
Arguments Timeout {_} _.
Arguments Transport {_} _.
Arguments network {_} _ _ _.
Arguments requests {_} _.
Arguments secretGets {_} _.
Arguments bodies {_} _.

(** *** Scenarios

    A library instance in which key pairs always load, every URL is
    accepted, and [json.Unmarshal] at [DBInfo] is a decoder of the wire
    shape of the info endpoint, an object with the one member [is_owner]. *)

Definition dquote : ascii := "034"%char.

Fixpoint skipSpace (s : list ascii) : list ascii :=
  match s with
  | c :: rest =>
      if (Ascii.eqb c " " || Ascii.eqb c "009" || Ascii.eqb c "010"
          || Ascii.eqb c "013")%char
      then skipSpace rest else s
  | [] => []
  end.

Fixpoint stripPrefix (p s : list ascii) : option (list ascii) :=
  match p, s with
  | [], _ => Some s
  | a :: p', b :: s' => if Ascii.eqb a b then stripPrefix p' s' else None
  | _ :: _, [] => None
  end.

Definition decodeClose (s : list ascii) (b : bool) : DBInfo + error :=
  match stripPrefix ["}"%char] (skipSpace s) with
  | Some rest =>
      match skipSpace rest with
      | [] => inl {| IsOwner := b |}
      | _ => inr (ErrorString "invalid character after top-level value")
      end
  | None => inr (ErrorString "invalid character after object key:value pair")
  end.

Definition decodeDBInfo (body : bytes) : DBInfo + error :=
  let s := list_ascii_of_string (string_of_list_byte body) in
  match stripPrefix ["{"%char] (skipSpace s) with
  | None => inr (ErrorString "cannot unmarshal into Go value of type DBInfo")
  | Some s1 =>
      match stripPrefix (dquote :: list_ascii_of_string "is_owner" ++ [dquote])
                        (skipSpace s1) with
      | None => inr (ErrorString "unexpected object key")
      | Some s2 =>
          match stripPrefix [":"%char] (skipSpace s2) with
          | None => inr (ErrorString "invalid character after object key")
          | Some s3 =>
              match stripPrefix (list_ascii_of_string "true") (skipSpace s3) with
              | Some s4 => decodeClose s4 true
              | None =>
                  match stripPrefix (list_ascii_of_string "false")
                                    (skipSpace s3) with
                  | Some s4 => decodeClose s4 false
                  | None => inr (ErrorString "cannot unmarshal into Go struct field DBInfo.is_owner of type bool")
                  end
              end
          end
      end
  end.

Definition demoLib : Library :=
  {| Certificate := bytes * bytes;
     CertPool := list bytes;
     Config := bytes;
     X509KeyPair := fun cert key => inl (cert, key);
     NewCertPool := [];
     AppendCertsFromPEM := fun pool pem => pool ++ [pem];
     newRequestErr := fun _ _ => None;
     UnmarshalDBInfo := decodeDBInfo;
     UnmarshalConfig := fun body => inl body;
     fmtVerbs := fun rest => rest;
     ClusterClientTLSSecretName := fun name => name +:+ "-cluster-client-secret" |}.

(** The body a member answers on [/info] when it is the owner. *)
Definition ownerBody : bytes :=
  list_byte_of_string
    ("{" +:+ String dquote "is_owner" +:+ String dquote ": true}").

(** A network on which every request is answered with [code] and [body]. *)
Definition demoNetwork (code : Z) (body : bytes)
    : HTTPClient demoLib -> Request -> WireResponse + error :=
  fun _ _ => inl {| wireStatus := code; wireBody := body; wireReadErr := None |}.

(** A network on which the body of every answer breaks off. *)
Definition demoBrokenBody (code : Z)
    : HTTPClient demoLib -> Request -> WireResponse + error :=
  fun _ _ => inl {| wireStatus := code; wireBody := [];
                    wireReadErr := Some (ErrorString "unexpected EOF") |}.

Definition demoNet (net : HTTPClient demoLib -> Request -> WireResponse + error)
    : World demoLib :=
  {| network := net; requests := []; secretGets := []; bodies := [] |}.

(** A secret with the certificate and the CA bundle but no private key. *)
Definition secretNoKey : Secret :=
  {| Data := <[TLSCertKey := list_byte_of_string "CERT"]>
               (<[ServiceAccountRootCAKey := list_byte_of_string "CA"]> ∅) |}.

Definition demoControl (secret : Secret) : defaultTiDBControl :=
  NewDefaultTiDBControl (fun _ _ => inl secret).

(** A secret with the certificate and the private key but no CA bundle. *)
Definition secretNoCA : Secret :=
  {| Data := <[TLSCertKey := list_byte_of_string "CERT"]>
               (<[TLSPrivateKeyKey := list_byte_of_string "KEY"]> ∅) |}.

(** The library instance in which no key pair loads. *)
Definition demoLibBadKeys : Library :=
  {| Certificate := bytes * bytes;
     CertPool := list bytes;
     Config := bytes;
     X509KeyPair := fun _ _ =>
       inr (ErrorString "tls: failed to find any PEM data in certificate input");
     NewCertPool := [];
     AppendCertsFromPEM := fun pool pem => pool ++ [pem];
     newRequestErr := fun _ _ => None;
     UnmarshalDBInfo := decodeDBInfo;
     UnmarshalConfig := fun body => inl body;
     fmtVerbs := fun rest => rest;
     ClusterClientTLSSecretName := fun name => name +:+ "-cluster-client-secret" |}.

(** A network on which nothing answers, and a secret store that is down. *)
Definition demoRefused : error := ErrorString "dial tcp: connection refused".
Definition demoDown (lib : Library)
    : HTTPClient lib -> Request -> WireResponse + error :=
  fun _ _ => inr demoRefused.
Definition demoForbidden : error :=
  StatusError StatusReasonUnknown "secrets is forbidden".
Definition demoNoStore : defaultTiDBControl :=
  NewDefaultTiDBControl (fun _ _ => inr demoForbidden).

(** The client built from [secretNoCA]. *)
Definition demoTLSClient : HTTPClient demoLib :=
  {| Timeout := timeout;
     Transport :=
       Some {| RootCAs := AppendCertsFromPEM demoLib (NewCertPool demoLib) [];
               Certificates :=
                 [(list_byte_of_string "CERT", list_byte_of_string "KEY")
                  : Certificate demoLib] |} |}.

(** The client of a cluster without TLS, and the base URL of member 1 of
    [demo]. *)
Definition plainClient : HTTPClient demoLib :=
  {| Timeout := timeout; Transport := None |}.

Definition demoURL : string := "http://demo-tidb-1.demo-tidb-peer.default:10080".

End TiDBControl.

(** ** The fake member status client ([FakeTiDBControl]) *)

Module FakeControl.

Import TiDBControl.

Section Fake.

(** [config.Config]. *)
Variable Config : Type.

(** [healthInfo] is a Go map, a reference that may be nil; [tiDBInfo] and
    [tidbConfig] are pointers that may be nil. *)
Record FakeTiDBControl := {
  healthInfo : option nat;
  tiDBInfo : option DBInfo;
  getInfoError : option error;
  tidbConfig : option Config
}.

(** [NewFakeTiDBControl]: the zero value. *)
Definition NewFakeTiDBControl : FakeTiDBControl :=
  {| healthInfo := None; tiDBInfo := None; getInfoError := None;
     tidbConfig := None |}.

(** The world: the Go maps that exist, by reference, and the fake that the
    receiver [ftd] points to. *)
Record World := {
  goMaps : gmap nat (gmap string bool);
  ftd : FakeTiDBControl
}.

Abbreviation F := (M World).

(** [m[key] = value] in the code that drives the fake; assigning into a nil
    map is a panic, which a [nat] reference outside [goMaps] stands for. *)
Definition mapAssign (m : nat) (key : string) (value : bool) : F unit :=
  fun w => match goMaps w !! m with
           | Some hm => Ok tt {| goMaps := <[m := <[key := value]> hm]> (goMaps w);
                                 ftd := ftd w |}
           | None => Panic
           end.

(** [SetHealth]: the reference is stored, the map is not copied. *)
Definition SetHealth (healthInfo : option nat) : F unit :=
  modify (fun w => {| goMaps := goMaps w;
                      ftd := {| healthInfo := healthInfo;
                                tiDBInfo := tiDBInfo (ftd w);
                                getInfoError := getInfoError (ftd w);
                                tidbConfig := tidbConfig (ftd w) |} |}).

(** The key of a member in [healthInfo]. *)
Definition podName (tc : TidbCluster) (ordinal : Z) : string :=
  TiDBMemberName (GetName tc) +:+ "-" +:+ itoa ordinal.

Definition GetHealth (tc : TidbCluster) (ordinal : Z) : F (bool * option error) :=
  fun w =>
    let podName := podName tc ordinal in
    match healthInfo (ftd w) with
    | None => Ok (false, None) w
    | Some m =>
        match goMaps w !! m with
        | None => Panic
        | Some hm =>
            match hm !! podName with
            | Some health => Ok (health, None) w
            | None => Ok (false, None) w
            end
        end
    end.

Definition GetInfo (tc : TidbCluster) (ordinal : Z)
    : F (option DBInfo * option error) :=
  gets (fun w => (tiDBInfo (ftd w), getInfoError (ftd w))).

Definition GetSettings (tc : TidbCluster) (ordinal : Z)
    : F (option Config * option error) :=
  gets (fun w => (tidbConfig (ftd w), getInfoError (ftd w))).

End Fake.

Arguments healthInfo {_} _.
Arguments tiDBInfo {_} _.
Arguments getInfoError {_} _.
Arguments tidbConfig {_} _.
Arguments goMaps {_} _.
Arguments ftd {_} _.
Arguments mapAssign {_} _ _ _ _.
Arguments SetHealth {_} _ _.
Arguments GetHealth {_} _ _ _.
Arguments GetInfo {_} _ _ _.
Arguments GetSettings {_} _ _ _.

(** The world after [SetHealth (Some m)]. *)
Definition healthSet {Config : Type} (m : nat) (w : World Config) : World Config :=
  {| goMaps := goMaps w;
     ftd := {| healthInfo := Some m; tiDBInfo := tiDBInfo (ftd w);
               getInfoError := getInfoError (ftd w);
               tidbConfig := tidbConfig (ftd w) |} |}.

(** A world with one empty map, at reference 0, and a new fake. *)
Definition demoFake : World unit :=
  {| goMaps := <[0%nat := ∅]> ∅; ftd := NewFakeTiDBControl unit |}.

End FakeControl.

(** * Properties of the status updater *)

Module UpdaterProofs.

Import retry TiKVGroupControl.

(** ** The retry loop, one step at a time *)

Section RetrySteps.
Context {W L : Type}.
Variable fn : L -> M W (L * option error).

Lemma backoff_exhausted st w :
  ExponentialBackoff 0 (conflictCondition fn) st w
  = Ok (st, Some ErrWaitTimeout) w.
Proof. reflexivity. Qed.

Lemma backoff_success steps l last w l' w' :
  fn l w = Ok (l', None) w' ->
  ExponentialBackoff (S steps) (conflictCondition fn) (l, last) w
  = Ok ((l', last), None) w'.
Proof.
  intros Hfn. simpl. unfold bind, conflictCondition, bind. simpl.
  rewrite Hfn. reflexivity.
Qed.

Lemma backoff_conflict steps l last w l' e w' :
  fn l w = Ok (l', Some e) w' ->
  IsConflict e = true ->
  ExponentialBackoff (S steps) (conflictCondition fn) (l, last) w
  = ExponentialBackoff steps (conflictCondition fn) (l', Some e) w'.
Proof.
  intros Hfn He. simpl. unfold bind at 1. unfold conflictCondition, bind.
  simpl. rewrite Hfn, He. reflexivity.
Qed.

Lemma backoff_failure steps l last w l' e w' :
  fn l w = Ok (l', Some e) w' ->
  IsConflict e = false ->
  ExponentialBackoff (S steps) (conflictCondition fn) (l, last) w
  = Ok ((l', last), Some e) w'.
Proof.
  intros Hfn He. simpl. unfold bind, conflictCondition, bind. simpl.
  rewrite Hfn, He. reflexivity.
Qed.

End RetrySteps.

Lemma conflict_is_no_timeout e : IsConflict e = true -> isErrWaitTimeout e = false.
Proof. destruct e; [reflexivity|reflexivity|discriminate]. Qed.

(** ** One call of the closure *)

Section Closure.
Context {Sp St : Type}.
Variable rtc : realTiKVGroupControl Sp St.
Variables ns name : string.
Variable status : St.

Lemma fresh_subseteq (h : gmap loc (TiKVGroup Sp St)) v :
  h ⊆ <[fresh (dom h) := v]> h.
Proof.
  apply insert_subseteq, not_elem_of_dom, is_fresh.
Qed.

Lemma handedBack_weaken (h h' : gmap loc (TiKVGroup Sp St)) r nil up :
  h ⊆ h' -> handedBack h r nil up -> handedBack h' r nil up.
Proof.
  intros Hsub. unfold handedBack. destruct nil; [auto|].
  intros (p & Hup & Hp). exists p. split; [exact Hup|].
  eapply lookup_weaken; eauto.
Qed.

(** One [Update]: the store is sent the object behind [tg]; the heap only
    grows, by the result object when one is handed back. *)
Lemma Update_spec tg v w :
  heap w !! tg = Some v ->
  exists up w',
    Update rtc ns tg w = Ok (up, (cli rtc (length (updates w)) ns v).2) w'
    /\ heap w ⊆ heap w'
    /\ updates w' = updates w ++ [(ns, v)]
    /\ lookups w' = lookups w
    /\ logs w' = logs w
    /\ handedBack (heap w') (cli rtc (length (updates w)) ns v).1
         (match (cli rtc (length (updates w)) ns v).2 with
          | Some _ => nilResult rtc (length (updates w)) ns v
          | None => false
          end) up.
Proof.
  intros Htg. unfold Update, bind at 1, load. rewrite Htg.
  unfold bind at 1, gets. unfold bind at 1, modify.
  cbn [updates addUpdate].
  destruct (cli rtc (length (updates w)) ns v).2 as [e|] eqn:He;
    [destruct (nilResult rtc (length (updates w)) ns v)|];
    unfold bind, alloc, ret; eexists _, _; (split; [reflexivity|]);
    cbn [heap updates lookups logs setHeap addUpdate]; repeat split;
    try reflexivity; try apply fresh_subseteq.
  - eexists. split; [reflexivity|]. apply lookup_insert_eq.
  - eexists. split; [reflexivity|]. apply lookup_insert_eq.
Qed.

(** One call of the closure on a working pointer that holds [v], when the
    pointer the lister may hand out is in the heap. *)
Lemma updateOnce_spec tg u v w :
  heap w !! tg = Some v ->
  (forall q, tgLister rtc (length (lookups w)) ns name = inl q ->
             is_Some (heap w !! q)) ->
  exists tg' up w',
    updateOnce rtc ns name status (tg, u) w
    = Ok ((tg', up), (cli rtc (length (updates w)) ns v).2) w'
    /\ heap w ⊆ heap w'
    /\ updates w' = updates w ++ [(ns, v)]
    /\ handedBack (heap w') (cli rtc (length (updates w)) ns v).1
         (match (cli rtc (length (updates w)) ns v).2 with
          | Some _ => nilResult rtc (length (updates w)) ns v
          | None => false
          end) up
    /\ match (cli rtc (length (updates w)) ns v).2 with
       | None =>
           tg' = tg
           /\ lookups w' = lookups w
           /\ logs w' = logs w ++ [Infof (infoMsg ns name)]
       | Some e =>
           lookups w' = lookups w ++ [(ns, name)]
           /\ match tgLister rtc (length (lookups w)) ns name with
              | inr err =>
                  tg' = tg
                  /\ logs w' = logs w
                       ++ [Warningf (warnMsg ns name e);
                           HandleError (ErrorString (listerMsg ns name err))]
              | inl q =>
                  exists c, heap w !! q = Some c
                    /\ heap w' !! tg' = Some (withStatus c status)
                    /\ logs w' = logs w ++ [Warningf (warnMsg ns name e)]
              end
       end.
Proof.
  intros Htg Hq.
  destruct (Update_spec tg v w Htg)
    as (up & w1 & Hrun & Hsub & Hu & Hl & Hlg & Hup).
  unfold updateOnce, bind at 1. cbn [fst]. rewrite Hrun.
  destruct (cli rtc (length (updates w)) ns v).2 as [e|] eqn:He.
  - unfold bind at 1, log, modify. unfold bind at 1, Get.
    unfold bind at 1, gets. unfold bind at 1, modify. unfold ret at 1.
    cbn [lookups addLog]. rewrite Hl.
    destruct (tgLister rtc (length (lookups w)) ns name) as [q|err] eqn:Hlq.
    + destruct (Hq q eq_refl) as [c Hc].
      assert (Hc1 : heap w1 !! q = Some c) by (eapply lookup_weaken; eauto).
      unfold bind at 1, DeepCopy, bind at 1, load.
      cbn [heap addLookup addLog]. rewrite Hc1. unfold alloc.
      cbn [heap addLookup addLog]. unfold bind, setStatus, ret.
      cbn [heap setHeap]. rewrite lookup_insert_eq.
      cbn [heap setHeap]. rewrite insert_insert_eq.
      eexists _, _, _. split; [reflexivity|].
      cbn [heap updates lookups logs setHeap addLookup addLog].
      assert (Hsub1 : heap w1 ⊆ <[fresh (dom (heap w1)) := withStatus c status]>
                                  (heap w1)) by apply fresh_subseteq.
      split; [etrans; eauto|]. split; [exact Hu|].
      split; [eapply handedBack_weaken; eauto|].
      split; [rewrite Hl; reflexivity|].
      exists c. split; [exact Hc|]. split; [apply lookup_insert_eq|].
      rewrite Hlg. reflexivity.
    + unfold bind, log, modify, ret.
      eexists _, _, _. split; [reflexivity|].
      cbn [heap updates lookups logs setHeap addLookup addLog].
      split; [exact Hsub|]. split; [exact Hu|]. split; [exact Hup|].
      split; [rewrite Hl; reflexivity|]. split; [reflexivity|].
      rewrite Hlg, <- app_assoc. reflexivity.
  - unfold bind, log, modify, ret.
    eexists _, _, _. split; [reflexivity|].
    cbn [heap updates lookups logs setHeap addLookup addLog].
    split; [exact Hsub|]. split; [exact Hu|]. split; [exact Hup|].
    split; [reflexivity|]. split; [exact Hl|]. rewrite Hlg. reflexivity.
Qed.

End Closure.

(** ** The loop of one call of [UpdateTiKVGroup]

    [w0] is the world at the call, [tg0] the pointer passed in and [v0] the
    object it points to. *)

Section Run.
Context {Sp St : Type}.
Variable rtc : realTiKVGroupControl Sp St.
Variable w0 : World Sp St.
Variable tg0 : loc.
Variable v0 : TiKVGroup Sp St.
Hypothesis Htg0 : heap w0 !! tg0 = Some v0.
Hypothesis Hvalid : listerValid rtc (heap w0) (GetNamespace v0) (GetName v0).

Let ns := GetNamespace v0.
Let name := GetName v0.
Let cond := conflictCondition (updateOnce rtc ns name (Status v0)).
Let sent := sent rtc w0 v0.
Let AtAttempt := AtAttempt rtc w0 v0.

Lemma withStatus_same (v : TiKVGroup Sp St) : withStatus v (Status v) = v.
Proof. destruct v; reflexivity. Qed.

Lemma working_0 : working rtc w0 v0 0 = v0.
Proof. unfold working. simpl. apply withStatus_same. Qed.

Lemma working_Status i : Status (working rtc w0 v0 i) = Status v0.
Proof. reflexivity. Qed.

Lemma working_lister_error i err :
  tgLister rtc (length (lookups w0) + i) ns name = inr err ->
  working rtc w0 v0 (S i) = working rtc w0 v0 i.
Proof.
  intros Hl. unfold working. simpl. fold ns name. rewrite Hl. reflexivity.
Qed.

Lemma working_refetched i q c :
  tgLister rtc (length (lookups w0) + i) ns name = inl q ->
  heap w0 !! q = Some c ->
  working rtc w0 v0 (S i) = withStatus c (Status v0).
Proof.
  intros Hl Hq. unfold working. simpl. fold ns name. rewrite Hl, Hq.
  reflexivity.
Qed.

Lemma sent_S m : sent (S m) = sent m ++ [(ns, working rtc w0 v0 m)].
Proof. unfold sent, TiKVGroupControl.sent. rewrite seq_S, map_app. reflexivity. Qed.

Lemma logged_S m :
  flat_map (attemptLog rtc w0 v0) (seq 0 (S m))
  = flat_map (attemptLog rtc w0 v0) (seq 0 m) ++ attemptLog rtc w0 v0 m.
Proof. rewrite seq_S, flat_map_app. simpl. rewrite app_nil_r. reflexivity. Qed.

Lemma replicate_S_snoc {A} i (x : A) : replicate (S i) x = replicate i x ++ [x].
Proof.
  change (S i) with (1 + i)%nat. rewrite Nat.add_comm, replicate_add. reflexivity.
Qed.

Lemma AtAttempt_0 : AtAttempt 0 ((tg0, None), None) w0.
Proof.
  unfold AtAttempt, TiKVGroupControl.AtAttempt. simpl.
  rewrite working_0, !app_nil_r. repeat split; auto.
Qed.

Lemma AtAttempt_lengths i st w :
  AtAttempt i st w ->
  length (updates w) = (length (updates w0) + i)%nat /\
  length (lookups w) = (length (lookups w0) + i)%nat.
Proof.
  intros (_ & _ & Hu & Hl & _). rewrite Hu, Hl.
  rewrite !length_app. unfold sent, TiKVGroupControl.sent.
  rewrite length_map, length_seq, length_replicate. auto.
Qed.

(** One call of the closure in the state reached after [i] conflicts: the
    write goes out, what the client hands back is kept, the lister is looked
    up exactly when the write failed, and after a failed write the working
    pointer holds the next working object. *)
Lemma closure_at i st w :
  AtAttempt i st w ->
  exists tg' up w',
    updateOnce rtc ns name (Status v0) st.1 w
    = Ok ((tg', up), (response rtc w0 v0 i).2) w'
    /\ heap w0 ⊆ heap w'
    /\ updates w' = updates w0 ++ sent (S i)
    /\ lookups w'
       = lookups w0
         ++ replicate (match (response rtc w0 v0 i).2 with
                       | None => i
                       | Some _ => S i
                       end) (ns, name)
    /\ logs w' = logs w0 ++ flat_map (attemptLog rtc w0 v0) (seq 0 (S i))
    /\ handedBack (heap w') (response rtc w0 v0 i).1 (nilAnswer rtc w0 v0 i) up
    /\ (forall e, (response rtc w0 v0 i).2 = Some e ->
          AtAttempt (S i) ((tg', up), Some e) w').
Proof.
  intros Hat. destruct (AtAttempt_lengths _ _ _ Hat) as [Hlu Hll].
  destruct Hat as (Hsub & Htg & Hu & Hl & Hlg & _).
  destruct st as [[tg u] last]. simpl in Htg. cbn [fst].
  destruct (updateOnce_spec rtc ns name (Status v0) tg u _ w Htg)
    as (tg' & up & w' & Hrun & Hsub' & Hu' & Hup & Hrest).
  { intros q Hq. destruct (Hvalid _ _ Hq) as [c Hc]. exists c.
    eapply lookup_weaken; eauto. }
  rewrite logged_S. unfold nilAnswer, attemptLog, response.
  fold ns name. rewrite <- Hlu, <- Hll.
  exists tg', up, w'. split; [exact Hrun|]. split; [etrans; eauto|].
  split; [rewrite Hu', Hu, sent_S, app_assoc; reflexivity|].
  destruct (cli rtc (length (updates w)) ns (working rtc w0 v0 i)).2
    as [e|] eqn:He.
  - destruct Hrest as (Hl' & Hrest).
    assert (Hlook : lookups w' = lookups w0 ++ replicate (S i) (ns, name)).
    { rewrite Hl', Hl, replicate_S_snoc, app_assoc. reflexivity. }
    destruct (tgLister rtc (length (lookups w)) ns name) as [q|err] eqn:Hq.
    + destruct Hrest as (c & Hc & Htg' & Hlg').
      destruct (Hvalid _ _ Hq) as [c0 Hc0].
      assert (c0 = c) as ->.
      { pose proof (lookup_weaken _ _ _ _ Hc0 Hsub) as Hc'. congruence. }
      split; [exact Hlook|].
      split; [rewrite Hlg', Hlg, <- app_assoc; reflexivity|].
      split; [exact Hup|].
      intros e' [= <-]. unfold AtAttempt, TiKVGroupControl.AtAttempt.
      cbn [fst snd]. rewrite Hll in Hq.
      rewrite (working_refetched _ _ _ Hq Hc0), logged_S.
      unfold attemptLog, response. fold ns name. rewrite <- Hlu, He, Hq.
      split; [etrans; eauto|]. split; [exact Htg'|].
      split; [rewrite Hu', Hu, sent_S, app_assoc; reflexivity|].
      split; [exact Hlook|].
      split; [rewrite Hlg', Hlg, <- app_assoc; reflexivity|].
      reflexivity.
    + destruct Hrest as (-> & Hlg').
      split; [exact Hlook|].
      split; [rewrite Hlg', Hlg, <- app_assoc; reflexivity|].
      split; [exact Hup|].
      intros e' [= <-]. unfold AtAttempt, TiKVGroupControl.AtAttempt.
      cbn [fst snd]. rewrite Hll in Hq.
      rewrite (working_lister_error _ _ Hq), logged_S.
      unfold attemptLog, response. fold ns name. rewrite <- Hlu, He, Hq.
      split; [etrans; eauto|].
      split; [eapply lookup_weaken; eauto|].
      split; [rewrite Hu', Hu, sent_S, app_assoc; reflexivity|].
      split; [exact Hlook|].
      split; [rewrite Hlg', Hlg, <- app_assoc; reflexivity|].
      reflexivity.
  - destruct Hrest as (-> & Hl' & Hlg').
    split; [rewrite Hl', Hl; reflexivity|].
    split; [rewrite Hlg', Hlg, <- app_assoc; reflexivity|].
    split; [exact Hup|]. intros e' [=].
Qed.

(** The loop from the state reached after [i] conflicts, with at least one
    step left: it ends after [m] writes in all; the error it ends with, once
    the sentinel is replaced by the last conflict error, is
    [returnedError]. *)
Lemma loop_outcome steps : forall i st w,
  AtAttempt i st w ->
  exists tg' up last err w' m,
    ExponentialBackoff (S steps) cond st w = Ok (((tg', up), last), err) w'
    /\ (i < m <= i + S steps)%nat
    /\ match err with
       | Some e => if isErrWaitTimeout e then last else Some e
       | None => None
       end = returnedError rtc w0 v0 m
    /\ heap w0 ⊆ heap w'
    /\ updates w' = updates w0 ++ sent m
    /\ lookups w'
       = lookups w0
         ++ replicate (match (response rtc w0 v0 (pred m)).2 with
                       | None => pred m
                       | Some _ => m
                       end) (ns, name)
    /\ logs w' = logs w0 ++ flat_map (attemptLog rtc w0 v0) (seq 0 m)
    /\ handedBack (heap w') (response rtc w0 v0 (pred m)).1
         (nilAnswer rtc w0 v0 (pred m)) up
    /\ (forall k, (i <= k < pred m)%nat ->
          conflicted (response rtc w0 v0 k) = true)
    /\ ((m < i + S steps)%nat ->
        conflicted (response rtc w0 v0 (pred m)) = false).
Proof.
  induction steps as [|s IH]; intros i st w Hat;
    destruct (closure_at i st w Hat)
      as (tg' & up & w' & Hrun & Hsub & Hu & Hl & Hlg & Hup & Hnext);
    pose proof Hat as (_ & _ & _ & _ & _ & Hlast);
    destruct st as [l last]; cbn [fst snd] in Hrun, Hlast;
    destruct (response rtc w0 v0 i).2 as [e|] eqn:He;
    try destruct (IsConflict e) eqn:Hc.
  - exists tg', up, (Some e), (Some ErrWaitTimeout), w', (S i).
    unfold cond. rewrite (backoff_conflict _ _ _ _ _ _ _ _ Hrun Hc).
    rewrite backoff_exhausted. unfold returnedError. cbn [pred isErrWaitTimeout].
    rewrite He, (conflict_is_no_timeout _ Hc).
    repeat split; auto; try lia.
  - exists tg', up, last, (Some e), w', (S i).
    unfold cond. rewrite (backoff_failure _ _ _ _ _ _ _ _ Hrun Hc).
    unfold returnedError. cbn [pred]. rewrite He, Hlast.
    repeat split; auto; try lia;
      intros _; unfold conflicted; rewrite He; exact Hc.
  - exists tg', up, last, None, w', (S i).
    unfold cond. rewrite (backoff_success _ _ _ _ _ _ _ Hrun).
    unfold returnedError. cbn [pred]. rewrite He.
    repeat split; auto; try lia;
      intros _; unfold conflicted; rewrite He; reflexivity.
  - destruct (IH (S i) _ w' (Hnext e eq_refl))
      as (tg2 & up2 & last2 & err2 & w2 & m & Hrun2 & Hm & Hres & Hsub2
          & Hu2 & Hl2 & Hlg2 & Hup2 & Hconf & Hstop).
    exists tg2, up2, last2, err2, w2, m.
    split; [etrans; [exact (backoff_conflict _ _ _ _ _ _ _ _ Hrun Hc)
                    |exact Hrun2]|].
    repeat split; auto; try lia.
    + intros k Hk. destruct (Nat.eq_dec k i) as [->|Hne].
      * unfold conflicted. rewrite He. exact Hc.
      * apply Hconf. lia.
    + intros Hlt. apply Hstop. lia.
  - exists tg', up, last, (Some e), w', (S i).
    unfold cond. rewrite (backoff_failure _ _ _ _ _ _ _ _ Hrun Hc).
    unfold returnedError. cbn [pred]. rewrite He, Hlast.
    repeat split; auto; try lia;
      intros _; unfold conflicted; rewrite He; exact Hc.
  - exists tg', up, last, None, w', (S i).
    unfold cond. rewrite (backoff_success _ _ _ _ _ _ _ Hrun).
    unfold returnedError. cbn [pred]. rewrite He.
    repeat split; auto; try lia;
      intros _; unfold conflicted; rewrite He; reflexivity.
Qed.

End Run.

(** ** [UpdateTiKVGroup] *)

Section Main.
Context {Sp St : Type}.
Implicit Types (rtc : realTiKVGroupControl Sp St) (w : World Sp St)
  (v : TiKVGroup Sp St) (newStatus oldStatus : option St).

Lemma UpdateTiKVGroup_unfold rtc tg newStatus oldStatus w v0 :
  heap w !! tg = Some v0 ->
  UpdateTiKVGroup rtc tg newStatus oldStatus w
  = match ExponentialBackoff (Steps DefaultRetry)
            (conflictCondition
               (updateOnce rtc (GetNamespace v0) (GetName v0) (Status v0)))
            ((tg, None), None) w with
    | Ok (st, err) w' =>
        Ok (st.1.2, match err with
                    | Some e => if isErrWaitTimeout e then st.2 else Some e
                    | None => None
                    end) w'
    | Panic => Panic
    end.
Proof.
  intros Htg. unfold UpdateTiKVGroup, bind at 1, load. rewrite Htg.
  unfold bind at 1, RetryOnConflict, bind at 1.
  destruct (ExponentialBackoff _ _ _ w) as [[st [e|]] w'|]; [|reflexivity..].
  destruct (isErrWaitTimeout e); reflexivity.
Qed.

Lemma writesSince_app w w' l :
  updates w' = updates w ++ l -> writesSince w w' = l.
Proof.
  intros H. unfold writesSince. rewrite H. apply drop_app_length.
Qed.

Lemma logsSince_app w w' l :
  logs w' = logs w ++ l -> logsSince w w' = l.
Proof.
  intros H. unfold logsSince. rewrite H. apply drop_app_length.
Qed.

Lemma sent_length rtc w v0 m : length (sent rtc w v0 m) = m.
Proof. unfold sent. rewrite length_map, length_seq. reflexivity. Qed.

Lemma sent_lookup rtc w v0 m k :
  (k < m)%nat -> sent rtc w v0 m !! k = Some (GetNamespace v0, working rtc w v0 k).
Proof.
  intros Hk. unfold sent. rewrite list_lookup_fmap_Some_2 with (x := k).
  - reflexivity.
  - apply lookup_seq. lia.
Qed.

(** What one call does, in full: [m] writes, the working objects [0 .. m-1];
    all but the last answered with a conflict; the error made of the answer
    to the last one; what the last [Update] handed back. *)
Lemma UpdateTiKVGroup_run rtc tg newStatus oldStatus w v0 :
  heap w !! tg = Some v0 ->
  listerValid rtc (heap w) (GetNamespace v0) (GetName v0) ->
  exists up err w' m,
    UpdateTiKVGroup rtc tg newStatus oldStatus w = Ok (up, err) w'
    /\ (1 <= m <= Steps DefaultRetry)%nat
    /\ updates w' = updates w ++ sent rtc w v0 m
    /\ length (writesSince w w') = m
    /\ err = returnedError rtc w v0 m
    /\ heap w ⊆ heap w'
    /\ handedBack (heap w') (response rtc w v0 (pred m)).1
         (nilAnswer rtc w v0 (pred m)) up
    /\ lookups w'
       = lookups w
         ++ replicate (match (response rtc w v0 (pred m)).2 with
                       | None => pred m
                       | Some _ => m
                       end) (GetNamespace v0, GetName v0)
    /\ logs w' = logs w ++ flat_map (attemptLog rtc w v0) (seq 0 m)
    /\ (forall k, (k < pred m)%nat -> conflicted (response rtc w v0 k) = true)
    /\ ((m < Steps DefaultRetry)%nat ->
        conflicted (response rtc w v0 (pred m)) = false).
Proof.
  intros Htg Hvalid.
  destruct (loop_outcome rtc w v0 Hvalid 4 0 _ w (AtAttempt_0 rtc w tg v0 Htg))
    as (tg' & up & last & err & w' & m & Hrun & Hm & Hres & Hsub & Hu & Hl
        & Hlg & Hup & Hconf & Hstop).
  rewrite (UpdateTiKVGroup_unfold _ _ _ _ _ _ Htg).
  change (Steps DefaultRetry) with 5%nat. rewrite Hrun. cbn [fst snd].
  eexists up, _, w', m.
  split; [reflexivity|]. rewrite Hres.
  split; [lia|]. split; [exact Hu|].
  split; [rewrite (writesSince_app _ _ _ Hu); apply sent_length|].
  repeat split; auto.
  intros k Hk. apply Hconf. lia.
Qed.

(** The number of writes of a call, from the answers of the store. *)
Lemma writes_until_no_conflict rtc w v0 m N :
  (1 <= m <= Steps DefaultRetry)%nat ->
  (forall k, (k < pred m)%nat -> conflicted (response rtc w v0 k) = true) ->
  ((m < Steps DefaultRetry)%nat ->
   conflicted (response rtc w v0 (pred m)) = false) ->
  (N < Steps DefaultRetry)%nat ->
  (forall k, (k < N)%nat -> conflicted (response rtc w v0 k) = true) ->
  conflicted (response rtc w v0 N) = false ->
  m = S N.
Proof.
  intros Hm Hconf Hstop HN Hc Hn.
  destruct (lt_eq_lt_dec (pred m) N) as [[Hlt|Heq]|Hgt].
  - rewrite Hc in Hstop by exact Hlt. specialize (Hstop ltac:(lia)).
    discriminate.
  - lia.
  - rewrite Hconf in Hn by exact Hgt. discriminate.
Qed.

Lemma writes_all_conflicts rtc w v0 m :
  (1 <= m <= Steps DefaultRetry)%nat ->
  ((m < Steps DefaultRetry)%nat ->
   conflicted (response rtc w v0 (pred m)) = false) ->
  (forall k, (k < Steps DefaultRetry)%nat ->
     conflicted (response rtc w v0 k) = true) ->
  m = Steps DefaultRetry.
Proof.
  intros Hm Hstop Hc.
  destruct (Nat.eq_dec m (Steps DefaultRetry)) as [|Hne]; [assumption|].
  rewrite Hc in Hstop by lia. specialize (Hstop ltac:(lia)). discriminate.
Qed.

(** C10. Two calls of [UpdateTiKVGroup] with the same object, store and
    lister in the same world do the same, whatever their new-status and
    old-status arguments are: the same result and the same final world (so
    the same writes, lookups and log).  Both arguments are ignored. *)
Theorem UpdateTiKVGroup_ignores_status_arguments
    rtc tg newStatus1 oldStatus1 newStatus2 oldStatus2 w :
  UpdateTiKVGroup rtc tg newStatus1 oldStatus1 w
  = UpdateTiKVGroup rtc tg newStatus2 oldStatus2 w.
Proof. reflexivity. Qed.

(** C1, amended. The status that is snapshotted and re-asserted during the
    retries is the status of the live object passed in, read at the call;
    the old-status (and new-status) argument is not consulted.  Whatever
    they are, the call returns, makes between one and [Steps DefaultRetry]
    writes, and its [k]-th write is the object fetched last from the lister
    before it (the live object if there is none) carrying the status of the
    live object. *)
Theorem UpdateTiKVGroup_baseline_is_live_status
    rtc tg newStatus oldStatus w v0 :
  heap w !! tg = Some v0 ->
  listerValid rtc (heap w) (GetNamespace v0) (GetName v0) ->
  exists r w' m,
    UpdateTiKVGroup rtc tg newStatus oldStatus w = Ok r w'
    /\ (1 <= m <= Steps DefaultRetry)%nat
    /\ updates w' = updates w
         ++ map (fun k => (GetNamespace v0, working rtc w v0 k)) (seq 0 m)
    /\ forall k, working rtc w v0 k
         = withStatus (default v0 (fetched rtc (heap w) (length (lookups w))
                                           (GetNamespace v0) (GetName v0) k))
                      (Status v0).
Proof.
  intros Htg Hvalid.
  destruct (UpdateTiKVGroup_run rtc tg newStatus oldStatus w v0 Htg Hvalid)
    as (up & err & w' & m & Hrun & Hm & Hu & _).
  exists (up, err), w', m. split; [exact Hrun|]. split; [exact Hm|].
  split; [exact Hu|]. reflexivity.
Qed.

(** C2, amended. When the store answers the first [N] writes with a
    conflict and accepts the next one, [N] below the retry budget, the call
    makes exactly [N+1] writes and returns the store's result with a nil
    error.  The object persisted by the last write carries the status of the
    live object passed in (not the new-status argument) and the spec of the
    object fetched last from the lister, the original spec when no fetch
    succeeded. *)
Theorem UpdateTiKVGroup_conflicts_then_success
    rtc tg newStatus oldStatus w v0 N :
  heap w !! tg = Some v0 ->
  listerValid rtc (heap w) (GetNamespace v0) (GetName v0) ->
  (N < Steps DefaultRetry)%nat ->
  (forall k, (k < N)%nat -> conflicted (response rtc w v0 k) = true) ->
  (response rtc w v0 N).2 = None ->
  exists p w',
    UpdateTiKVGroup rtc tg newStatus oldStatus w = Ok (Some p, None) w'
    /\ heap w' !! p = Some (response rtc w v0 N).1
    /\ length (writesSince w w') = S N
    /\ last (updates w') = Some (GetNamespace v0, working rtc w v0 N)
    /\ Status (working rtc w v0 N) = Status v0
    /\ Spec (working rtc w v0 N)
       = Spec (default v0 (fetched rtc (heap w) (length (lookups w))
                                   (GetNamespace v0) (GetName v0) N)).
Proof.
  intros Htg Hvalid HN Hconf Hok.
  destruct (UpdateTiKVGroup_run rtc tg newStatus oldStatus w v0 Htg Hvalid)
    as (up & err & w' & m & Hrun & Hm & Hu & Hlen & Herr & _ & Hup & _ & _
        & Hc & Hstop).
  assert (m = S N) as ->.
  { eapply writes_until_no_conflict; eauto.
    unfold conflicted. rewrite Hok. reflexivity. }
  cbn [pred] in Hup. unfold returnedError in Herr. cbn [pred] in Herr.
  rewrite Hok in Herr. subst err.
  unfold nilAnswer in Hup. rewrite Hok in Hup. destruct Hup as (p & -> & Hp).
  exists p, w'. split; [exact Hrun|]. split; [exact Hp|].
  split; [exact Hlen|]. split; [|split; reflexivity].
  unfold sent in Hu. rewrite Hu, seq_S, map_app, app_assoc. apply last_snoc.
Qed.

(** C3, amended. When every write within the budget is answered with a
    conflict, the call makes exactly [Steps DefaultRetry] writes, no more,
    and returns the conflict error of the last one.  When the write after
    [N] conflicts, [N] below the budget, is answered with an error that is
    no conflict, the call stops after these [N+1] writes; it returns that
    error unless the error is the sentinel [wait.ErrWaitTimeout], for which
    it returns the error of the conflict before it, and nil when there was
    none.  Whatever the store answers, the call makes at most
    [Steps DefaultRetry] writes. *)
Theorem UpdateTiKVGroup_budget rtc tg newStatus oldStatus w v0 :
  heap w !! tg = Some v0 ->
  listerValid rtc (heap w) (GetNamespace v0) (GetName v0) ->
  ((forall k, (k < Steps DefaultRetry)%nat ->
      conflicted (response rtc w v0 k) = true) ->
   exists u e w',
     UpdateTiKVGroup rtc tg newStatus oldStatus w = Ok (u, Some e) w'
     /\ (response rtc w v0 (Steps DefaultRetry - 1)).2 = Some e
     /\ IsConflict e = true
     /\ length (writesSince w w') = Steps DefaultRetry)
  /\ (forall N e,
       (N < Steps DefaultRetry)%nat ->
       (forall k, (k < N)%nat -> conflicted (response rtc w v0 k) = true) ->
       (response rtc w v0 N).2 = Some e ->
       IsConflict e = false ->
       exists u w',
         UpdateTiKVGroup rtc tg newStatus oldStatus w
         = Ok (u, if isErrWaitTimeout e
                  then match N with
                       | O => None
                       | S j => (response rtc w v0 j).2
                       end
                  else Some e) w'
         /\ length (writesSince w w') = S N)
  /\ (exists r w',
       UpdateTiKVGroup rtc tg newStatus oldStatus w = Ok r w'
       /\ (length (writesSince w w') <= Steps DefaultRetry)%nat).
Proof.
  intros Htg Hvalid.
  destruct (UpdateTiKVGroup_run rtc tg newStatus oldStatus w v0 Htg Hvalid)
    as (up & err & w' & m & Hrun & Hm & Hu & Hlen & Herr & _ & _ & _ & _
        & Hc & Hstop).
  split; [|split].
  - intros Hconf.
    assert (m = Steps DefaultRetry) as -> by (eapply writes_all_conflicts; eauto).
    specialize (Hconf 4%nat ltac:(simpl; lia)). unfold conflicted in Hconf.
    unfold returnedError in Herr. change (pred (Steps DefaultRetry)) with 4%nat in Herr.
    change (Steps DefaultRetry - 1)%nat with 4%nat.
    destruct (response rtc w v0 4).2 as [e|] eqn:He; [|discriminate].
    rewrite (conflict_is_no_timeout _ Hconf) in Herr. subst err.
    exists up, e, w'. auto.
  - intros N e HN Hconf He Hne.
    assert (m = S N) as ->.
    { eapply writes_until_no_conflict; eauto.
      unfold conflicted. rewrite He. exact Hne. }
    unfold returnedError in Herr. cbn [pred] in Herr. rewrite He in Herr.
    subst err. exists up, w'. auto.
  - exists (up, err), w'. split; [exact Hrun|]. lia.
Qed.

(** C4. The first write of a call sends the object passed in.  In every
    iteration of the call whose write is answered with a conflict: when the
    lookup in the lister fails, the failure is logged and, unless the budget
    is used up, the next write is made all the same and sends the very
    object the failed write sent; when the lookup finds an object, the next
    write sends what that object holds with the status the object passed in
    had at the call, and the object the lister handed out holds after the
    call what it held before.  No object that existed before the call is
    changed by it. *)
Theorem UpdateTiKVGroup_lister_outcomes rtc tg newStatus oldStatus w v0 :
  heap w !! tg = Some v0 ->
  listerValid rtc (heap w) (GetNamespace v0) (GetName v0) ->
  exists up err w',
    UpdateTiKVGroup rtc tg newStatus oldStatus w = Ok (up, err) w'
    /\ head (writesSince w w') = Some (GetNamespace v0, v0)
    /\ heap w ⊆ heap w'
    /\ forall k u,
         writesSince w w' !! k = Some u ->
         conflicted (response rtc w v0 k) = true ->
         match tgLister rtc (length (lookups w) + k) (GetNamespace v0)
                        (GetName v0) with
         | inr lerr =>
             HandleError
               (ErrorString (listerMsg (GetNamespace v0) (GetName v0) lerr))
               ∈ logsSince w w'
             /\ ((S k < Steps DefaultRetry)%nat ->
                 writesSince w w' !! S k = Some u)
         | inl q =>
             exists c,
               heap w !! q = Some c
               /\ heap w' !! q = Some c
               /\ ((S k < Steps DefaultRetry)%nat ->
                   writesSince w w' !! S k
                   = Some (GetNamespace v0, withStatus c (Status v0)))
         end.
Proof.
  intros Htg Hvalid.
  destruct (UpdateTiKVGroup_run rtc tg newStatus oldStatus w v0 Htg Hvalid)
    as (up & err & w' & m & Hrun & Hm & Hu & Hlen & _ & Hsub & _ & _ & Hlg
        & Hc & Hstop).
  pose proof (writesSince_app _ _ _ Hu) as Hw.
  pose proof (logsSince_app _ _ _ Hlg) as Hlogs.
  exists up, err, w'. split; [exact Hrun|]. rewrite Hw, Hlogs. split; [|split].
  - destruct m as [|m]; [lia|]. unfold sent. simpl.
    rewrite (working_0 rtc w v0). reflexivity.
  - exact Hsub.
  - intros k u Hk Hconf.
    assert (Hkm : (k < m)%nat).
    { apply lookup_lt_Some in Hk. rewrite sent_length in Hk. exact Hk. }
    rewrite (sent_lookup _ _ _ _ _ Hkm) in Hk. injection Hk as <-.
    assert (Hnext : (S k < Steps DefaultRetry)%nat -> (S k < m)%nat).
    { intros Hbudget. destruct (Nat.eq_dec (S k) m) as [<-|Hne]; [|lia].
      cbn [pred] in Hstop. rewrite Hconf in Hstop.
      specialize (Hstop Hbudget). discriminate. }
    destruct (tgLister rtc (length (lookups w) + k) (GetNamespace v0)
                       (GetName v0)) as [q|lerr] eqn:Hq.
    + destruct (Hvalid _ _ Hq) as [c Hc0]. exists c.
      split; [exact Hc0|]. split; [eapply lookup_weaken; eauto|].
      intros Hbudget. rewrite (sent_lookup _ _ _ _ _ (Hnext Hbudget)).
      rewrite (working_refetched rtc w v0 k q c Hq Hc0). reflexivity.
    + split.
      * apply list_elem_of_In, in_flat_map. exists k. split.
        -- apply in_seq. lia.
        -- unfold attemptLog. unfold conflicted in Hconf.
           destruct (response rtc w v0 k).2 as [e|]; [|discriminate].
           rewrite Hq. right. left. reflexivity.
      * intros Hbudget. rewrite (sent_lookup _ _ _ _ _ (Hnext Hbudget)).
        rewrite (working_lister_error rtc w v0 k lerr Hq). reflexivity.
Qed.

End Main.

(** ** The scenario, run *)

Lemma demo_live : heap demoWorld !! 0%nat = Some demoLive.
Proof. vm_compute. reflexivity. Defined.

Lemma demo_listerValid n :
  listerValid (demoRtc n) (heap demoWorld) (GetNamespace demoLive) (GetName demoLive).
Proof.
  intros j p H. simpl in H. injection H as <-. exists demoCached.
  vm_compute. reflexivity.
Defined.

Lemma demo_deaf_listerValid n :
  listerValid (demoDeaf n) (heap demoWorld) (GetNamespace demoLive) (GetName demoLive).
Proof. intros j p H. simpl in H. discriminate H. Defined.

Lemma demo_broken_listerValid n :
  listerValid (demoBroken n) (heap demoWorld) (GetNamespace demoLive) (GetName demoLive).
Proof.
  intros j p H. simpl in H. injection H as <-. exists demoCached.
  vm_compute. reflexivity.
Defined.

Lemma demo_stuck_listerValid n :
  listerValid (demoStuck n) (heap demoWorld) (GetNamespace demoLive) (GetName demoLive).
Proof.
  intros j p H. simpl in H. injection H as <-. exists demoCached.
  vm_compute. reflexivity.
Defined.

Lemma demo_bare_listerValid n :
  listerValid (demoBare n) (heap demoWorld) (GetNamespace demoLive) (GetName demoLive).
Proof.
  intros j p H. simpl in H. injection H as <-. exists demoCached.
  vm_compute. reflexivity.
Defined.

Lemma demo_one_conflict_statuses :
  writtenStatuses demoWorld
    (UpdateTiKVGroup (demoRtc 1) 0%nat (Some 5%nat) (Some 1%nat) demoWorld)
  = [2%nat; 2%nat].
Proof. vm_compute. reflexivity. Qed.

(** C1, as stated, fails: with one conflict and a successful lookup, the
    status re-asserted onto the re-fetched object is 2, the status of the
    live object, although the old-status argument is 1. *)
Lemma baseline_is_not_old_status :
  ~ (forall (rtc : realTiKVGroupControl nat nat) tg newStatus s0 w r w',
       UpdateTiKVGroup rtc tg newStatus (Some s0) w = Ok r w' ->
       forall u, u ∈ drop 1 (writesSince w w') -> Status u.2 = s0).
Proof.
  intros H. pose proof demo_one_conflict_statuses as Hs.
  destruct (UpdateTiKVGroup (demoRtc 1) 0%nat (Some 5%nat) (Some 1%nat) demoWorld)
    as [r w'|] eqn:Hrun; [|discriminate Hs].
  specialize (H _ _ _ _ _ _ _ Hrun). simpl in Hs.
  destruct (writesSince demoWorld w') as [|u1 [|u2 l]]; try discriminate Hs.
  specialize (H u2 ltac:(simpl; left)). simpl in Hs. congruence.
Qed.

Lemma UpdateTiKVGroup_baseline_is_live_status_witness :
  exists r w' m,
    UpdateTiKVGroup (demoRtc 1) 0%nat (Some 5%nat) (Some 1%nat) demoWorld = Ok r w'
    /\ (1 <= m <= Steps DefaultRetry)%nat
    /\ updates w' = updates demoWorld
         ++ map (fun k => (GetNamespace demoLive, working (demoRtc 1) demoWorld demoLive k))
                (seq 0 m)
    /\ forall k, working (demoRtc 1) demoWorld demoLive k
         = withStatus (default demoLive
                         (fetched (demoRtc 1) (heap demoWorld)
                                  (length (lookups demoWorld))
                                  (GetNamespace demoLive) (GetName demoLive) k))
                      (Status demoLive).
Proof.
  apply (UpdateTiKVGroup_baseline_is_live_status (demoRtc 1) 0%nat
           (Some 5%nat) (Some 1%nat) demoWorld demoLive).
  - exact demo_live.
  - exact (demo_listerValid 1).
Defined.

Lemma demo_accepted_statuses :
  writtenStatuses demoWorld
    (UpdateTiKVGroup (demoRtc 0) 0%nat (Some 5%nat) (Some 1%nat) demoWorld)
  = [2%nat].
Proof. vm_compute. reflexivity. Qed.

(** C2, as stated, fails: with no conflict at all the write is accepted at
    once and the persisted status is 2, the status of the live object,
    although the new-status argument is 5. *)
Lemma persisted_status_is_not_new_status :
  ~ (forall (rtc : realTiKVGroupControl nat nat) tg S1 S0 w v0 N,
       heap w !! tg = Some v0 ->
       listerValid rtc (heap w) (GetNamespace v0) (GetName v0) ->
       (N < Steps DefaultRetry)%nat ->
       (forall k, (k < N)%nat -> conflicted (response rtc w v0 k) = true) ->
       (response rtc w v0 N).2 = None ->
       exists p w',
         UpdateTiKVGroup rtc tg (Some S1) (Some S0) w = Ok (Some p, None) w'
         /\ length (writesSince w w') = S N
         /\ exists u, last (updates w') = Some u /\ Status u.2 = S1).
Proof.
  intros H.
  destruct (H (demoRtc 0) 0%nat 5%nat 1%nat demoWorld demoLive 0%nat)
    as (p & w' & Hrun & _ & u & Hlast & Hst).
  - exact demo_live.
  - exact (demo_listerValid 0).
  - simpl. lia.
  - intros k Hk. lia.
  - vm_compute. reflexivity.
  - pose proof demo_accepted_statuses as Hs. rewrite Hrun in Hs.
    unfold writtenStatuses, writesSince in Hs. simpl in Hs.
    destruct (updates w') as [|x [|y l]]; try discriminate Hs.
    simpl in Hlast, Hs. congruence.
Qed.

Lemma UpdateTiKVGroup_conflicts_then_success_witness :
  exists p w',
    UpdateTiKVGroup (demoRtc 2) 0%nat (Some 5%nat) (Some 1%nat) demoWorld
    = Ok (Some p, None) w'
    /\ heap w' !! p = Some (response (demoRtc 2) demoWorld demoLive 2).1
    /\ length (writesSince demoWorld w') = 3%nat
    /\ last (updates w')
       = Some (GetNamespace demoLive, working (demoRtc 2) demoWorld demoLive 2)
    /\ Status (working (demoRtc 2) demoWorld demoLive 2) = Status demoLive
    /\ Spec (working (demoRtc 2) demoWorld demoLive 2)
       = Spec (default demoLive
                 (fetched (demoRtc 2) (heap demoWorld) (length (lookups demoWorld))
                          (GetNamespace demoLive) (GetName demoLive) 2)).
Proof.
  apply (UpdateTiKVGroup_conflicts_then_success (demoRtc 2) 0%nat
           (Some 5%nat) (Some 1%nat) demoWorld demoLive 2).
  - exact demo_live.
  - exact (demo_listerValid 2).
  - simpl. lia.
  - intros k Hk. do 2 (destruct k as [|k]; [vm_compute; reflexivity|]). lia.
  - vm_compute. reflexivity.
Defined.

Lemma demo_stuck_result :
  exists u w',
    UpdateTiKVGroup (demoStuck 0) 0%nat None None demoWorld = Ok (u, None) w'.
Proof. vm_compute. eexists _, _. reflexivity. Qed.

(** C3, as stated, fails: a store that answers the first write with the
    sentinel [wait.ErrWaitTimeout], an error that is no conflict, makes the
    call stop after that write, but the error returned is nil, not the
    error of the write. *)
Lemma sentinel_error_is_not_returned :
  ~ (forall (rtc : realTiKVGroupControl nat nat) tg newStatus oldStatus w v0 N e,
       heap w !! tg = Some v0 ->
       listerValid rtc (heap w) (GetNamespace v0) (GetName v0) ->
       (N < Steps DefaultRetry)%nat ->
       (forall k, (k < N)%nat -> conflicted (response rtc w v0 k) = true) ->
       (response rtc w v0 N).2 = Some e ->
       IsConflict e = false ->
       exists u w',
         UpdateTiKVGroup rtc tg newStatus oldStatus w = Ok (u, Some e) w'
         /\ length (writesSince w w') = S N).
Proof.
  intros H.
  destruct (H (demoStuck 0) 0%nat None None demoWorld demoLive 0%nat
              ErrWaitTimeout)
    as (u & w' & Hrun & _).
  - exact demo_live.
  - exact (demo_stuck_listerValid 0).
  - simpl. lia.
  - intros k Hk. lia.
  - vm_compute. reflexivity.
  - reflexivity.
  - destruct demo_stuck_result as (u0 & w0 & Hrun0).
    rewrite Hrun0 in Hrun. discriminate Hrun.
Qed.

Lemma UpdateTiKVGroup_budget_witness :
  (exists u e w',
     UpdateTiKVGroup (demoRtc 7) 0%nat None None demoWorld = Ok (u, Some e) w'
     /\ (response (demoRtc 7) demoWorld demoLive (Steps DefaultRetry - 1)).2 = Some e
     /\ IsConflict e = true
     /\ length (writesSince demoWorld w') = Steps DefaultRetry)
  /\ (exists u w',
       UpdateTiKVGroup (demoBroken 2) 0%nat None None demoWorld
       = Ok (u, Some demoTimeout) w'
       /\ length (writesSince demoWorld w') = 3%nat)
  /\ (exists u w',
       UpdateTiKVGroup (demoStuck 2) 0%nat None None demoWorld
       = Ok (u, Some demoConflict) w'
       /\ length (writesSince demoWorld w') = 3%nat).
Proof.
  split; [|split].
  - apply (UpdateTiKVGroup_budget (demoRtc 7) 0%nat None None demoWorld demoLive
             demo_live (demo_listerValid 7)).
    intros k Hk. simpl in Hk.
    do 5 (destruct k as [|k]; [vm_compute; reflexivity|]). lia.
  - destruct (UpdateTiKVGroup_budget (demoBroken 2) 0%nat None None demoWorld
                demoLive demo_live (demo_broken_listerValid 2))
      as (_ & Hstop & _).
    apply (Hstop 2%nat demoTimeout).
    + simpl. lia.
    + intros k Hk. do 2 (destruct k as [|k]; [vm_compute; reflexivity|]). lia.
    + vm_compute. reflexivity.
    + reflexivity.
  - destruct (UpdateTiKVGroup_budget (demoStuck 2) 0%nat None None demoWorld
                demoLive demo_live (demo_stuck_listerValid 2))
      as (_ & Hstop & _).
    apply (Hstop 2%nat ErrWaitTimeout).
    + simpl. lia.
    + intros k Hk. do 2 (destruct k as [|k]; [vm_compute; reflexivity|]). lia.
    + vm_compute. reflexivity.
    + reflexivity.
Defined.

Lemma UpdateTiKVGroup_lister_outcomes_witness :
  (exists up err w',
     UpdateTiKVGroup (demoDeaf 1) 0%nat None None demoWorld = Ok (up, err) w'
     /\ HandleError (ErrorString (listerMsg "default" "tikv" demoNotFound))
          ∈ logsSince demoWorld w'
     /\ writesSince demoWorld w' !! 0%nat = Some ("default", demoLive)
     /\ writesSince demoWorld w' !! 1%nat = Some ("default", demoLive))
  /\ (exists up err w',
       UpdateTiKVGroup (demoRtc 1) 0%nat None None demoWorld = Ok (up, err) w'
       /\ heap demoWorld !! 1%nat = Some demoCached
       /\ heap w' !! 1%nat = Some demoCached
       /\ writesSince demoWorld w' !! 0%nat = Some ("default", demoLive)
       /\ writesSince demoWorld w' !! 1%nat
          = Some ("default", withStatus demoCached 2%nat)).
Proof.
  split.
  - destruct (UpdateTiKVGroup_lister_outcomes (demoDeaf 1) 0%nat None None
                demoWorld demoLive demo_live (demo_deaf_listerValid 1))
      as (up & err & w' & Hrun & Hhead & _ & Hiter).
    assert (Hfirst : writesSince demoWorld w' !! 0%nat = Some ("default", demoLive)).
    { destruct (writesSince demoWorld w'); [discriminate Hhead|exact Hhead]. }
    destruct (Hiter 0%nat _ Hfirst) as (Hlog & Hnext).
    + vm_compute. reflexivity.
    + exists up, err, w'. repeat split; try assumption.
      apply Hnext. simpl. lia.
  - destruct (UpdateTiKVGroup_lister_outcomes (demoRtc 1) 0%nat None None
                demoWorld demoLive demo_live (demo_listerValid 1))
      as (up & err & w' & Hrun & Hhead & _ & Hiter).
    assert (Hfirst : writesSince demoWorld w' !! 0%nat = Some ("default", demoLive)).
    { destruct (writesSince demoWorld w'); [discriminate Hhead|exact Hhead]. }
    destruct (Hiter 0%nat _ Hfirst) as (c & Hc & Hc' & Hnext).
    + vm_compute. reflexivity.
    + assert (Hcached : heap demoWorld !! 1%nat = Some demoCached)
        by (vm_compute; reflexivity).
      assert (c = demoCached) as ->
        by (vm_compute in Hc; injection Hc as <-; reflexivity).
      exists up, err, w'. repeat split; try assumption.
      apply Hnext. simpl. lia.
Defined.

End UpdaterProofs.

(** * Properties of the member status client *)

Module ClientProofs.

Import TiDBControl.

(** ** Strings as lists of characters *)

Lemma chars_app (a b : string) : chars (a +:+ b) = chars a ++ chars b.
Proof. induction a as [|c a IH]; simpl; [reflexivity|]. rewrite IH. reflexivity. Qed.

Lemma chars_inj (a b : string) : chars a = chars b -> a = b.
Proof.
  intros H. rewrite <- (string_of_list_ascii_of_string a),
    <- (string_of_list_ascii_of_string b), H. reflexivity.
Qed.

Lemma string_app_assoc (a b c : string) : (a +:+ b) +:+ c = a +:+ b +:+ c.
Proof.
  induction a as [|x a IH]; [reflexivity|].
  change (String x ((a +:+ b) +:+ c) = String x (a +:+ b +:+ c)).
  rewrite IH. reflexivity.
Qed.

(** ** Decimal numerals *)

Lemma uint_numeral (d : Decimal.uint) :
  forallb isNumeral (chars (NilEmpty.string_of_uint d)) = true.
Proof. induction d; simpl; auto. Qed.

Lemma itoa_numeral (z : Z) : forallb isNumeral (chars (itoa z)) = true.
Proof.
  unfold itoa. destruct (Z.to_int z) as [d|d]; simpl.
  - destruct d; try reflexivity; apply (uint_numeral (_ d)).
  - destruct d; try reflexivity; apply (uint_numeral (_ d)).
Qed.

Lemma itoa_inj (a b : Z) : itoa a = itoa b -> a = b.
Proof.
  unfold itoa. intros H.
  assert (Hn : forall z, NilZero.int_of_string (NilZero.string_of_int (Z.to_int z))
                         = Some (Z.to_int z)).
  { intros z. apply NilZero.isi; destruct z; simpl; try discriminate;
      intros [= E]; exact (DecimalPos.Unsigned.to_uint_nonnil _ E). }
  pose proof (Hn a) as Ha. rewrite H, Hn in Ha. injection Ha as Ha.
  rewrite <- (DecimalZ.of_to a), <- (DecimalZ.of_to b), Ha. reflexivity.
Qed.

(** ** Host names are unambiguous

    A host name is [c ++ "-tidb-" ++ d] with [d] a numeral; what follows it
    in the address starts with [.] and the cluster name again. *)

Lemma numeral_lookup (d : list ascii) (n : nat) (x : ascii) :
  forallb isNumeral d = true -> d !! n = Some x -> isNumeral x = true.
Proof.
  intros Hd Hx. rewrite forallb_forall in Hd. apply Hd.
  apply list_elem_of_In. eapply list_elem_of_lookup_2. exact Hx.
Qed.

Lemma host_overlap (c s d1 d2 : list ascii) :
  forallb isNumeral d1 = true ->
  tidbSep ++ d1 ++ "."%char :: c = s ++ tidbSep ++ d2 ++ "."%char :: c ++ s ->
  s = [].
Proof.
  intros Hd H. destruct s as [|a s]; [reflexivity|]. exfalso.
  assert (Hlen : length d1 = (length d2 + 2 * length s + 2)%nat).
  { apply (f_equal length) in H. repeat (rewrite ?length_app in H; simpl in H).
    lia. }
  assert (Hlk : (tidbSep ++ d1 ++ "."%char :: c) !! S (S (length s))
                = Some "t"%char).
  { rewrite H. rewrite lookup_app_r by (simpl; lia).
    replace (S (S (length s)) - length (a :: s))%nat with 1%nat by (simpl; lia).
    reflexivity. }
  destruct (length s) as [|[|[|[|n]]]]; try discriminate Hlk.
  change (S (S (S (S (S (S n)))))) with (length tidbSep + n)%nat in Hlk.
  rewrite lookup_app_r in Hlk by lia.
  replace (length tidbSep + n - length tidbSep)%nat with n in Hlk by lia.
  rewrite lookup_app_l in Hlk by lia.
  pose proof (numeral_lookup _ _ _ Hd Hlk) as Hn. discriminate Hn.
Qed.

Lemma host_unique (c1 c2 d1 d2 : list ascii) :
  forallb isNumeral d1 = true ->
  forallb isNumeral d2 = true ->
  c1 ++ tidbSep ++ d1 ++ "."%char :: c1 = c2 ++ tidbSep ++ d2 ++ "."%char :: c2 ->
  c1 = c2 /\ d1 = d2.
Proof.
  intros Hd1 Hd2 H.
  assert (Hsame : forall d d', tidbSep ++ d ++ "."%char :: c1
                               = tidbSep ++ d' ++ "."%char :: c1 -> d = d').
  { intros d d' E. apply app_inv_head in E.
    change (d ++ ["."%char] ++ c1 = d' ++ ["."%char] ++ c1) in E.
    eapply app_inv_tail. exact E. }
  destruct (app_eq_inv _ _ _ _ H) as [(s & Hc & Hr)|(s & Hc & Hr)].
  - subst c1. assert (s = []) as ->.
    { eapply (host_overlap c2 s d2 d1 Hd2). exact Hr. }
    rewrite app_nil_r in *. split; [reflexivity|].
    simpl in Hr. symmetry. eapply Hsame. exact Hr.
  - subst c2. assert (s = []) as ->.
    { eapply (host_overlap c1 s d1 d2 Hd1). exact Hr. }
    rewrite app_nil_r in *. split; [reflexivity|].
    simpl in Hr. eapply Hsame. exact Hr.
Qed.

(** ** Base URLs *)

Lemma getBaseURL_default tdc tc ordinal :
  testURL tdc = EmptyString ->
  getBaseURL tdc tc ordinal
  = Scheme tc +:+ "://" +:+ (TiDBMemberName (GetName tc) +:+ "-" +:+ itoa ordinal)
      +:+ "." +:+ TiDBPeerMemberName (GetName tc) +:+ "." +:+ GetNamespace tc
      +:+ ":10080".
Proof. intros H. unfold getBaseURL. rewrite H. reflexivity. Qed.

(** The address after the scheme, as characters. *)
Lemma address_chars (n d ns : string) :
  chars ((TiDBMemberName n +:+ "-" +:+ d) +:+ "." +:+ TiDBPeerMemberName n
         +:+ "." +:+ ns +:+ ":10080")
  = (chars n ++ tidbSep ++ chars d ++ "."%char :: chars n)
      ++ chars ("-tidb-peer." +:+ ns +:+ ":10080").
Proof.
  unfold TiDBMemberName, TiDBPeerMemberName.
  repeat (rewrite ?chars_app; simpl). rewrite <- !app_assoc. simpl.
  rewrite <- !app_assoc. reflexivity.
Qed.

Lemma address_inj (n1 n2 : string) (o1 o2 : Z) (ns : string) :
  (TiDBMemberName n1 +:+ "-" +:+ itoa o1) +:+ "." +:+ TiDBPeerMemberName n1
    +:+ "." +:+ ns +:+ ":10080"
  = (TiDBMemberName n2 +:+ "-" +:+ itoa o2) +:+ "." +:+ TiDBPeerMemberName n2
    +:+ "." +:+ ns +:+ ":10080" ->
  n1 = n2 /\ o1 = o2.
Proof.
  intros H. apply (f_equal chars) in H. rewrite !address_chars in H.
  apply app_inv_tail in H.
  destruct (host_unique _ _ _ _ (itoa_numeral o1) (itoa_numeral o2) H)
    as [Hn Ho].
  split; [apply chars_inj, Hn|apply itoa_inj, chars_inj, Ho].
Qed.

Lemma dotFree_chars (s : string) :
  dotFree s = true -> "."%char ∉ chars s.
Proof.
  induction s as [|c s IH]; simpl; intros H Hin.
  - apply elem_of_nil in Hin. exact Hin.
  - apply andb_true_iff in H. destruct H as [Hc Hs].
    apply elem_of_cons in Hin. destruct Hin as [<-|Hin].
    + discriminate Hc.
    + exact (IH Hs Hin).
Qed.

(** The text after the last dot of an address is its last label. *)
Lemma last_label (a1 a2 n1 n2 : list ascii) :
  "."%char ∉ n1 -> "."%char ∉ n2 ->
  a1 ++ "."%char :: n1 = a2 ++ "."%char :: n2 -> n1 = n2.
Proof.
  intros H1 H2 H.
  destruct (app_eq_inv _ _ _ _ H) as [(k & _ & Hk)|(k & _ & Hk)].
  - destruct k as [|x k]; simpl in Hk.
    + injection Hk as Hk. auto.
    + injection Hk as Hx Hk. exfalso. apply H2. rewrite Hk.
      apply elem_of_app. right. left.
  - destruct k as [|x k]; simpl in Hk.
    + injection Hk as Hk. auto.
    + injection Hk as Hx Hk. exfalso. apply H1. rewrite Hk.
      apply elem_of_app. right. left.
Qed.

Lemma namespace_inj (pre1 pre2 ns1 ns2 : string) :
  dotFree ns1 = true -> dotFree ns2 = true ->
  pre1 +:+ "." +:+ ns1 +:+ ":10080" = pre2 +:+ "." +:+ ns2 +:+ ":10080" ->
  ns1 = ns2.
Proof.
  intros H1 H2 H. apply (f_equal chars) in H.
  rewrite !chars_app in H. simpl in H.
  apply chars_inj.
  assert (Hport : forall ns, dotFree ns = true ->
            "."%char ∉ chars ns ++ chars ":10080").
  { intros ns Hns Hin. apply elem_of_app in Hin. destruct Hin as [Hin|Hin].
    - exact (dotFree_chars _ Hns Hin).
    - simpl in Hin. repeat (apply elem_of_cons in Hin;
        destruct Hin as [Hin|Hin]; [discriminate Hin|]).
      apply elem_of_nil in Hin. exact Hin. }
  pose proof (last_label _ _ _ _ (Hport _ H1) (Hport _ H2) H) as Hl.
  eapply app_inv_tail. exact Hl.
Qed.

(** C5. With no test URL set, the base URL is a function of the cluster
    name, the namespace, the ordinal and the TLS posture only, and ends in
    the port 10080; within a namespace two calls that give the same address
    have the same cluster name and the same ordinal (and the same TLS
    posture), and so have two calls in any two namespaces that are DNS
    labels; cluster [demo], ordinal 1, namespace [default], TLS disabled
    gives [http://demo-tidb-1.demo-tidb-peer.default:10080]. *)
Theorem getBaseURL_deterministic_injective tdc1 tdc2 tc1 tc2 o1 o2 :
  testURL tdc1 = EmptyString ->
  testURL tdc2 = EmptyString ->
  (GetName tc1 = GetName tc2 ->
   GetNamespace tc1 = GetNamespace tc2 ->
   IsTLSClusterEnabled tc1 = IsTLSClusterEnabled tc2 ->
   o1 = o2 ->
   getBaseURL tdc1 tc1 o1 = getBaseURL tdc2 tc2 o2)
  /\ (exists address, getBaseURL tdc1 tc1 o1 = address +:+ ":10080")
  /\ (GetNamespace tc1 = GetNamespace tc2 ->
      getBaseURL tdc1 tc1 o1 = getBaseURL tdc2 tc2 o2 ->
      GetName tc1 = GetName tc2 /\ o1 = o2
      /\ IsTLSClusterEnabled tc1 = IsTLSClusterEnabled tc2)
  /\ (dotFree (GetNamespace tc1) = true ->
      dotFree (GetNamespace tc2) = true ->
      getBaseURL tdc1 tc1 o1 = getBaseURL tdc2 tc2 o2 ->
      GetNamespace tc1 = GetNamespace tc2
      /\ GetName tc1 = GetName tc2 /\ o1 = o2)
  /\ getBaseURL tdc1 (demoCluster false) 1
     = "http://demo-tidb-1.demo-tidb-peer.default:10080".
Proof.
  intros H1 H2. rewrite !getBaseURL_default by assumption.
  assert (Hinj : GetNamespace tc1 = GetNamespace tc2 ->
            Scheme tc1 +:+ "://" +:+ (TiDBMemberName (GetName tc1) +:+ "-"
              +:+ itoa o1) +:+ "." +:+ TiDBPeerMemberName (GetName tc1) +:+ "."
              +:+ GetNamespace tc1 +:+ ":10080"
            = Scheme tc2 +:+ "://" +:+ (TiDBMemberName (GetName tc2) +:+ "-"
              +:+ itoa o2) +:+ "." +:+ TiDBPeerMemberName (GetName tc2) +:+ "."
              +:+ GetNamespace tc2 +:+ ":10080" ->
            GetName tc1 = GetName tc2 /\ o1 = o2
            /\ IsTLSClusterEnabled tc1 = IsTLSClusterEnabled tc2).
  { intros Hns H. rewrite Hns in H. unfold Scheme in H.
    destruct (IsTLSClusterEnabled tc1), (IsTLSClusterEnabled tc2);
      simpl in H; try discriminate H; injection H as H;
      destruct (address_inj _ _ _ _ _ H) as [Hn Ho]; auto. }
  split; [|split; [|split; [|split]]].
  - unfold Scheme. intros -> -> -> ->. reflexivity.
  - exists (Scheme tc1 +:+ "://" +:+ (TiDBMemberName (GetName tc1) +:+ "-"
              +:+ itoa o1) +:+ "." +:+ TiDBPeerMemberName (GetName tc1) +:+ "."
              +:+ GetNamespace tc1).
    rewrite !string_app_assoc. reflexivity.
  - exact Hinj.
  - intros Hd1 Hd2 H.
    assert (Hns : GetNamespace tc1 = GetNamespace tc2).
    { eapply (namespace_inj _ _ _ _ Hd1 Hd2).
      rewrite <- !string_app_assoc. rewrite <- !string_app_assoc in H.
      exact H. }
    destruct (Hinj Hns H) as (Hn & Ho & _). auto.
  - reflexivity.
Qed.

Lemma getBaseURL_deterministic_injective_witness :
  (exists address,
     getBaseURL (NewDefaultTiDBControl (fun _ _ => inr (ErrorString "no secret")))
                (demoCluster false) 3 = address +:+ ":10080")
  /\ getBaseURL (NewDefaultTiDBControl (fun _ _ => inr (ErrorString "no secret")))
                (demoCluster false) 1
     = "http://demo-tidb-1.demo-tidb-peer.default:10080".
Proof.
  pose proof (getBaseURL_deterministic_injective
                (NewDefaultTiDBControl (fun _ _ => inr (ErrorString "no secret")))
                (NewDefaultTiDBControl (fun _ _ => inr (ErrorString "no secret")))
                (demoCluster false) (demoCluster true) 3 4
                eq_refl eq_refl) as (_ & Hport & _ & _ & Hdemo).
  split; [exact Hport|exact Hdemo].
Defined.

(** ** The HTTP primitives *)

Section Ops.
Variable lib : Library.
Implicit Types (w : World lib) (c : HTTPClient lib) (tdc : defaultTiDBControl)
  (tc : TidbCluster) (r : WireResponse) (st : BodyState).

Lemma Do_answered c req w r :
  network w c req = inl r ->
  Do lib c req w
  = Ok (Some {| StatusCode := wireStatus r; Body := length (bodies w) |}, None)
       (opened lib r req w).
Proof. intros H. unfold Do. rewrite H. reflexivity. Qed.

Lemma Do_unanswered c req w e :
  network w c req = inr e ->
  Do lib c req w = Ok (None, Some e) (unanswered lib req w).
Proof. intros H. unfold Do. rewrite H. reflexivity. Qed.

Lemma opened_body r req w :
  bodies (opened lib r req w) !! length (bodies w)
  = Some {| content := wireBody r; readErr := wireReadErr r;
            drained := false; closed := false |}.
Proof. unfold opened. simpl. apply list_lookup_middle. reflexivity. Qed.

Lemma setBody_lookup b st st' w :
  bodies w !! b = Some st -> bodies (setBody lib b st' w) !! b = Some st'.
Proof.
  intros H. unfold setBody. simpl. apply list_lookup_insert_eq.
  eapply lookup_lt_Some. exact H.
Qed.

Lemma ReadAll_open b st w :
  bodies w !! b = Some st ->
  closed st = false ->
  ReadAll lib b w
  = match readErr st with
    | Some e => Ok ([], Some e) w
    | None =>
        Ok (content st, None)
           (setBody lib b {| content := content st; readErr := readErr st;
                             drained := true; closed := closed st |} w)
    end.
Proof. intros H Hc. unfold ReadAll. rewrite H, Hc. reflexivity. Qed.

Lemma DeferClose_at b st w :
  bodies w !! b = Some st ->
  DeferClose lib b w
  = Ok tt (setBody lib b {| content := content st; readErr := readErr st;
                            drained := true; closed := true |} w).
Proof. intros H. unfold DeferClose. rewrite H. reflexivity. Qed.

Lemma getHTTPClient_plain tdc tc w :
  IsTLSClusterEnabled tc = false ->
  getHTTPClient lib tdc tc w
  = Ok (Some {| Timeout := timeout; Transport := None |}, None) w.
Proof. intros H. unfold getHTTPClient. rewrite H. reflexivity. Qed.

(** [getHTTPClient] gives a client or an error, sends nothing and opens
    nothing. *)
Lemma getHTTPClient_total tdc tc w :
  exists w1,
    ((exists c, getHTTPClient lib tdc tc w = Ok (Some c, None) w1)
     \/ (exists e, getHTTPClient lib tdc tc w = Ok (None, Some e) w1))
    /\ network w1 = network w /\ requests w1 = requests w
    /\ bodies w1 = bodies w.
Proof.
  assert (Hdone : forall (x : option (HTTPClient lib) * option error) w1,
            ((exists c, x = (Some c, None)) \/ (exists e, x = (None, Some e))) ->
            network w1 = network w -> requests w1 = requests w ->
            bodies w1 = bodies w ->
            exists w2,
              ((exists c, Ok x w1 = Ok (Some c, None) w2)
               \/ (exists e, Ok x w1 = Ok (None, Some e) w2))
              /\ network w2 = network w /\ requests w2 = requests w
              /\ bodies w2 = bodies w).
  { intros x w1 [[c ->]|[e ->]] Hn Hr Hb; exists w1; eauto 7. }
  unfold getHTTPClient. destruct (IsTLSClusterEnabled tc); simpl.
  - unfold bind, SecretsGet, bind, modify, ret.
    destruct (kubeCli tdc _ _) as [secret|e]; simpl.
    + destruct (Data secret !! TLSCertKey), (Data secret !! TLSPrivateKeyKey);
        try (apply Hdone; eauto).
      destruct (X509KeyPair lib _ _); apply Hdone; eauto.
    + apply Hdone; eauto.
  - apply Hdone; eauto.
Qed.

Lemma getBodyOK_outcome c url w :
  exists body err w',
    getBodyOK lib c url w = Ok (body, err) w'
    /\ (err = None <->
        exists r, newRequestErr lib "GET" url = None
                  /\ network w c {| Method := "GET"; URL := url |} = inl r
                  /\ wireStatus r < 400 /\ wireReadErr r = None).
Proof.
  unfold getBodyOK, ClientGet, NewRequest.
  destruct (newRequestErr lib "GET" url) as [e|] eqn:Hreq.
  { eexists _, _, _. split; [reflexivity|].
    split; [discriminate|intros (r & Hn & _); discriminate Hn]. }
  unfold bind at 1.
  destruct (network w c {| Method := "GET"; URL := url |}) as [r|e] eqn:Hnet.
  - rewrite (Do_answered _ _ _ _ Hnet). cbn [StatusCode Body].
    destruct (400 <=? wireStatus r) eqn:Hcode.
    + eexists _, _, _. split; [reflexivity|].
      split; [discriminate|]. intros (r' & _ & [= <-] & Hlt & _).
      apply Z.leb_le in Hcode. lia.
    + apply Z.leb_gt in Hcode. unfold deferring, bind.
      rewrite (ReadAll_open _ _ _ (opened_body r _ w) eq_refl).
      cbn [readErr content closed].
      destruct (wireReadErr r) as [e|] eqn:Hread; unfold ret; cbv beta iota.
      * rewrite (DeferClose_at _ _ _ (opened_body r _ w)).
        eexists _, _, _. split; [reflexivity|].
        split; [discriminate|]. intros (r' & _ & [= <-] & _ & Hr). congruence.
      * rewrite (DeferClose_at _ _ _
                   (setBody_lookup _ _ _ _ (opened_body r _ w))).
        eexists _, _, _. split; [reflexivity|].
        split; [|reflexivity]. intros _. exists r. auto.
  - rewrite (Do_unanswered _ _ _ _ Hnet).
    eexists _, _, _. split; [reflexivity|].
    split; [discriminate|intros (r & _ & Hn & _); discriminate Hn].
Qed.

Lemma fetchJSON_outcome {A : Type} (unmarshal : bytes -> A + error)
    c method url w r :
  newRequestErr lib method url = None ->
  network w c {| Method := method; URL := url |} = inl r ->
  exists w',
    fetchJSON lib unmarshal c method url w = Ok (fetchResult lib unmarshal r url) w'
    /\ requests w' = requests w ++ [{| Method := method; URL := url |}]
    /\ exists st, bodies w' !! length (bodies w) = Some st /\ released st.
Proof.
  intros Hreq Hnet. unfold fetchJSON, fetchResult, NewRequest. rewrite Hreq.
  unfold bind at 1. rewrite (Do_answered _ _ _ _ Hnet). cbn [StatusCode Body].
  unfold deferring. destruct (negb (wireStatus r =? 200)).
  - unfold bind, ret. rewrite (DeferClose_at _ _ _ (opened_body r _ w)).
    eexists. split; [reflexivity|]. split; [reflexivity|].
    eexists. split; [eapply setBody_lookup, opened_body|split; reflexivity].
  - unfold bind.
    rewrite (ReadAll_open _ _ _ (opened_body r _ w) eq_refl).
      cbn [readErr content closed].
    destruct (wireReadErr r) as [e|]; unfold ret; cbv beta iota.
    + rewrite (DeferClose_at _ _ _ (opened_body r _ w)).
      eexists. split; [reflexivity|]. split; [reflexivity|].
      eexists. split; [eapply setBody_lookup, opened_body|split; reflexivity].
    + assert (Hb := setBody_lookup _ _
                {| content := wireBody r; readErr := None; drained := true;
                   closed := false |} _
                (opened_body r {| Method := method; URL := url |} w)).
      destruct (unmarshal (wireBody r)); unfold ret; cbv beta iota;
        rewrite (DeferClose_at _ _ _ Hb);
        (eexists; split; [reflexivity|]; split; [reflexivity|];
         eexists; split; [eapply setBody_lookup, Hb|split; reflexivity]).
Qed.

Lemma GetHealth_unfold tdc tc ordinal w :
  GetHealth lib tdc tc ordinal w
  = match getHTTPClient lib tdc tc w with
    | Ok (_, Some e) w1 => Ok (false, Some e) w1
    | Ok (Some c, None) w1 =>
        match getBodyOK lib c (getBaseURL tdc tc ordinal +:+ "/status") w1 with
        | Ok (_, err) w' =>
            Ok (match err with None => true | Some _ => false end, None) w'
        | Panic => Panic
        end
    | Ok (None, None) _ => Panic
    | Panic => Panic
    end.
Proof.
  unfold GetHealth, bind at 1.
  destruct (getHTTPClient lib tdc tc w) as [[[c|] [e|]] w1|]; try reflexivity.
  unfold bind. destruct (getBodyOK _ _ _ _) as [[body err] w'|]; reflexivity.
Qed.

Lemma GetInfo_unfold tdc tc ordinal w :
  GetInfo lib tdc tc ordinal w
  = match getHTTPClient lib tdc tc w with
    | Ok (_, Some e) w1 => Ok (None, Some e) w1
    | Ok (Some c, None) w1 =>
        fetchJSON lib (UnmarshalDBInfo lib) c "POST"
          (getBaseURL tdc tc ordinal +:+ "/info") w1
    | Ok (None, None) _ => Panic
    | Panic => Panic
    end.
Proof.
  unfold GetInfo, bind at 1.
  destruct (getHTTPClient lib tdc tc w) as [[[c|] [e|]] w1|]; reflexivity.
Qed.

Lemma GetSettings_unfold tdc tc ordinal w :
  GetSettings lib tdc tc ordinal w
  = match getHTTPClient lib tdc tc w with
    | Ok (_, Some e) w1 => Ok (None, Some e) w1
    | Ok (Some c, None) w1 =>
        fetchJSON lib (UnmarshalConfig lib) c "GET"
          (getBaseURL tdc tc ordinal +:+ "/settings") w1
    | Ok (None, None) _ => Panic
    | Panic => Panic
    end.
Proof.
  unfold GetSettings, bind at 1.
  destruct (getHTTPClient lib tdc tc w) as [[[c|] [e|]] w1|]; reflexivity.
Qed.

Lemma getHTTPClient_missing tdc tc w secret :
  IsTLSClusterEnabled tc = true ->
  kubeCli tdc (Namespace (tcMeta tc))
          (ClusterClientTLSSecretName lib (Name (tcMeta tc))) = inl secret ->
  Data secret !! TLSCertKey = None \/ Data secret !! TLSPrivateKeyKey = None ->
  getHTTPClient lib tdc tc w
  = Ok (None, Some (missingCredential lib tc))
       (fetchedSecret lib (Namespace (tcMeta tc))
          (ClusterClientTLSSecretName lib (Name (tcMeta tc))) w).
Proof.
  intros Htls Hget Hmiss. unfold getHTTPClient. rewrite Htls. simpl.
  unfold bind, SecretsGet, bind, modify, ret. rewrite Hget.
  destruct Hmiss as [-> | ->]; [reflexivity|].
  destruct (Data secret !! TLSCertKey); reflexivity.
Qed.

(** C8. On a cluster with TLS enabled, when the secret that was fetched has
    no client certificate or no private key, [GetHealth], [GetInfo] and
    [GetSettings] all fail with the missing-credential error; the secret was
    fetched once and no HTTP request went out. *)
Theorem missing_credential_is_fatal tdc tc ordinal w secret :
  IsTLSClusterEnabled tc = true ->
  kubeCli tdc (Namespace (tcMeta tc))
          (ClusterClientTLSSecretName lib (Name (tcMeta tc))) = inl secret ->
  Data secret !! TLSCertKey = None \/ Data secret !! TLSPrivateKeyKey = None ->
  exists w',
    GetHealth lib tdc tc ordinal w = Ok (false, Some (missingCredential lib tc)) w'
    /\ GetInfo lib tdc tc ordinal w = Ok (None, Some (missingCredential lib tc)) w'
    /\ GetSettings lib tdc tc ordinal w
       = Ok (None, Some (missingCredential lib tc)) w'
    /\ requests w' = requests w
    /\ bodies w' = bodies w
    /\ secretGets w'
       = secretGets w ++ [(Namespace (tcMeta tc),
                           ClusterClientTLSSecretName lib (Name (tcMeta tc)))].
Proof.
  intros Htls Hget Hmiss. eexists.
  rewrite GetHealth_unfold, GetInfo_unfold, GetSettings_unfold,
    (getHTTPClient_missing _ _ _ _ Htls Hget Hmiss).
  repeat split; reflexivity.
Qed.

(** C6, amended. [GetHealth] always returns.  When the HTTP client cannot
    be built (TLS is enabled and the secret cannot be fetched, lacks the
    certificate or the key, or holds a key pair that does not load) it
    returns false together with that error.  When the client is built, in
    particular whenever TLS is disabled, it returns a nil error, and it
    returns true if and only if the request is answered with a status code
    below 400 and the body is read to its end without an error. *)
Theorem GetHealth_outcome tdc tc ordinal w :
  exists healthy err w',
    GetHealth lib tdc tc ordinal w = Ok (healthy, err) w'
    /\ (forall e w1,
          getHTTPClient lib tdc tc w = Ok (None, Some e) w1 ->
          healthy = false /\ err = Some e /\ w' = w1)
    /\ (forall c w1,
          getHTTPClient lib tdc tc w = Ok (Some c, None) w1 ->
          err = None
          /\ (healthy = true <->
              exists r,
                newRequestErr lib "GET" (getBaseURL tdc tc ordinal +:+ "/status")
                = None
                /\ network w c {| Method := "GET";
                                  URL := getBaseURL tdc tc ordinal +:+ "/status" |}
                   = inl r
                /\ wireStatus r < 400 /\ wireReadErr r = None))
    /\ (IsTLSClusterEnabled tc = false -> err = None).
Proof.
  rewrite GetHealth_unfold.
  destruct (getHTTPClient_total tdc tc w) as (w1 & [[c Hc]|[e He]] & Hn & _).
  - rewrite Hc.
    destruct (getBodyOK_outcome c (getBaseURL tdc tc ordinal +:+ "/status") w1)
      as (body & err & w' & Hb & Hiff).
    rewrite Hb, Hn in *. eexists _, _, w'. split; [reflexivity|].
    split; [discriminate|]. split; [|reflexivity].
    intros c' w1' [= <- <-]. split; [reflexivity|].
    rewrite <- Hiff. destruct err; split; congruence.
  - rewrite He. eexists _, _, w1. split; [reflexivity|].
    split; [intros e' w1' [= <- <-]; auto|]. split; [discriminate|].
    intros Htls. rewrite (getHTTPClient_plain _ _ _ Htls) in He. discriminate He.
Qed.

(** ** Status errors *)

Lemma percentFree_app (a b : string) :
  percentFree (a +:+ b) = percentFree a && percentFree b.
Proof.
  induction a as [|x a IH]; [reflexivity|].
  change (negb (Ascii.eqb x "%") && percentFree (a +:+ b)
          = negb (Ascii.eqb x "%") && percentFree a && percentFree b).
  rewrite IH, andb_assoc. reflexivity.
Qed.

Lemma uint_percentFree (d : Decimal.uint) :
  percentFree (NilEmpty.string_of_uint d) = true.
Proof. induction d; simpl; auto. Qed.

Lemma itoa_percentFree (z : Z) : percentFree (itoa z) = true.
Proof.
  unfold itoa. destruct (Z.to_int z) as [d|d]; simpl.
  - destruct d; try reflexivity; apply (uint_percentFree (_ d)).
  - destruct d; try reflexivity; apply (uint_percentFree (_ d)).
Qed.

Lemma splitVerb_app (pre x : string) :
  percentFree pre = true ->
  splitVerb (pre +:+ x) = (pre +:+ (splitVerb x).1, (splitVerb x).2).
Proof.
  induction pre as [|a pre IH]; intros H.
  - change (splitVerb x = ((splitVerb x).1, (splitVerb x).2)).
    destruct (splitVerb x); reflexivity.
  - simpl in H. apply andb_true_iff in H. destruct H as [Ha Hp].
    change (splitVerb (String a (pre +:+ x))
            = (String a (pre +:+ (splitVerb x).1), (splitVerb x).2)).
    simpl. destruct (Ascii.eqb a "%"); [discriminate Ha|].
    rewrite (IH Hp). reflexivity.
Qed.

Lemma splitVerb_free (x : string) :
  percentFree x = true -> splitVerb x = (x, EmptyString).
Proof.
  induction x as [|a x IH]; intros H; [reflexivity|].
  simpl in H. apply andb_true_iff in H. destruct H as [Ha Hp].
  simpl. destruct (Ascii.eqb a "%"); [discriminate Ha|].
  rewrite (IH Hp). reflexivity.
Qed.

Lemma Errorf0_free (x : string) :
  percentFree x = true -> Errorf0 lib x = ErrorString x.
Proof. intros H. unfold Errorf0. rewrite (splitVerb_free _ H). reflexivity. Qed.

Lemma Errorf0_prefix (pre x : string) :
  percentFree pre = true ->
  Error (Errorf0 lib (pre +:+ x)) = pre +:+ Error (Errorf0 lib x).
Proof.
  intros H. unfold Errorf0. rewrite (splitVerb_app _ _ H).
  destruct (splitVerb x) as [lit rest]. simpl.
  destruct rest; [reflexivity|]. simpl. rewrite string_app_assoc. reflexivity.
Qed.

(** The message of a status error: the status code is always there as it
    was received; the URL is there as it was requested when it has no [%]. *)
Lemma statusError_message (code : Z) (url : string) :
  Error (statusError lib code url)
  = "Error response " +:+ itoa code +:+ " URL: " +:+ Error (Errorf0 lib url)
  /\ (percentFree url = true ->
      Error (statusError lib code url)
      = "Error response " +:+ itoa code +:+ " URL: " +:+ url).
Proof.
  assert (Hm : Error (statusError lib code url)
    = "Error response " +:+ itoa code +:+ " URL: " +:+ Error (Errorf0 lib url)).
  { unfold statusError.
    rewrite <- (string_app_assoc (itoa code) " URL: " url).
    rewrite <- (string_app_assoc "Error response " (itoa code +:+ " URL: ") url).
    rewrite Errorf0_prefix.
    - rewrite !string_app_assoc. reflexivity.
    - rewrite !percentFree_app, itoa_percentFree. reflexivity. }
  split; [exact Hm|]. intros Hfree. rewrite Hm, (Errorf0_free _ Hfree).
  reflexivity.
Qed.

(** A base URL made from a cluster name and a namespace without [%] has
    none. *)
Lemma getBaseURL_percentFree tdc tc ordinal :
  testURL tdc = EmptyString ->
  percentFree (GetName tc) = true ->
  percentFree (GetNamespace tc) = true ->
  percentFree (getBaseURL tdc tc ordinal) = true.
Proof.
  intros Ht Hn Hns. rewrite (getBaseURL_default _ _ _ Ht).
  unfold TiDBMemberName, TiDBPeerMemberName, Scheme.
  rewrite !percentFree_app, Hn, Hns, itoa_percentFree.
  destruct (IsTLSClusterEnabled tc); reflexivity.
Qed.

Lemma fetch_after_client {A : Type} (unmarshal : bytes -> A + error)
    tdc tc w c w1 method url r :
  getHTTPClient lib tdc tc w = Ok (Some c, None) w1 ->
  newRequestErr lib method url = None ->
  network w c {| Method := method; URL := url |} = inl r ->
  exists w',
    fetchJSON lib unmarshal c method url w1 = Ok (fetchResult lib unmarshal r url) w'
    /\ exists st, bodies w' !! length (bodies w) = Some st /\ released st.
Proof.
  intros Hc Hreq Hnet.
  destruct (getHTTPClient_total tdc tc w) as (w1' & Hshape & Hn & _ & Hb).
  assert (w1' = w1) as ->.
  { destruct Hshape as [[c' Hc']|[e He]]; congruence. }
  rewrite <- Hn in Hnet.
  destruct (fetchJSON_outcome unmarshal c method url w1 r Hreq Hnet)
    as (w' & Hf & _ & Hst).
  exists w'. rewrite <- Hb. auto.
Qed.

(** C7. When the request of [GetInfo] ([GetSettings]) is answered with a
    status code other than 200, the operation returns no payload and the
    status error made from the status code as received and the request URL.
    Its message is [Error response], the status code, [URL:] and the URL;
    the URL stands there literally when it has no [%], which is so for every
    address made from a cluster name and a namespace without [%] (the
    message goes through [fmt.Errorf] as a format).  When the answer is 200
    with a body that is read and decodes, [GetInfo] returns the decoded info
    and a nil error. *)
Theorem GetInfo_GetSettings_status tdc tc ordinal w c w1 r :
  getHTTPClient lib tdc tc w = Ok (Some c, None) w1 ->
  (newRequestErr lib "POST" (getBaseURL tdc tc ordinal +:+ "/info") = None ->
   network w c {| Method := "POST"; URL := getBaseURL tdc tc ordinal +:+ "/info" |}
   = inl r ->
   (wireStatus r <> 200 ->
    exists w',
      GetInfo lib tdc tc ordinal w
      = Ok (None, Some (statusError lib (wireStatus r)
                          (getBaseURL tdc tc ordinal +:+ "/info"))) w')
   /\ (wireStatus r = 200 -> wireReadErr r = None ->
       forall info, UnmarshalDBInfo lib (wireBody r) = inl info ->
       exists w', GetInfo lib tdc tc ordinal w = Ok (Some info, None) w'))
  /\ (newRequestErr lib "GET" (getBaseURL tdc tc ordinal +:+ "/settings") = None ->
      network w c {| Method := "GET";
                     URL := getBaseURL tdc tc ordinal +:+ "/settings" |}
      = inl r ->
      wireStatus r <> 200 ->
      exists w',
        GetSettings lib tdc tc ordinal w
        = Ok (None, Some (statusError lib (wireStatus r)
                            (getBaseURL tdc tc ordinal +:+ "/settings"))) w')
  /\ (forall url,
       Error (statusError lib (wireStatus r) url)
       = "Error response " +:+ itoa (wireStatus r) +:+ " URL: "
           +:+ Error (Errorf0 lib url)
       /\ (percentFree url = true ->
           Error (statusError lib (wireStatus r) url)
           = "Error response " +:+ itoa (wireStatus r) +:+ " URL: " +:+ url))
  /\ (testURL tdc = EmptyString ->
      percentFree (GetName tc) = true ->
      percentFree (GetNamespace tc) = true ->
      Error (statusError lib (wireStatus r) (getBaseURL tdc tc ordinal +:+ "/info"))
      = "Error response " +:+ itoa (wireStatus r) +:+ " URL: "
          +:+ getBaseURL tdc tc ordinal +:+ "/info"
      /\ Error (statusError lib (wireStatus r)
                  (getBaseURL tdc tc ordinal +:+ "/settings"))
         = "Error response " +:+ itoa (wireStatus r) +:+ " URL: "
             +:+ getBaseURL tdc tc ordinal +:+ "/settings").
Proof.
  intros Hc. split; [|split; [|split]].
  - intros Hreq Hnet.
    destruct (fetch_after_client (UnmarshalDBInfo lib) _ _ _ _ _ _ _ _
                Hc Hreq Hnet) as (w' & Hf & _).
    rewrite GetInfo_unfold, Hc, Hf. unfold fetchResult. split.
    + intros Hcode. apply Z.eqb_neq in Hcode. rewrite Hcode.
      exists w'. reflexivity.
    + intros Hcode Hread info Hinfo. rewrite Hcode, Hread, Hinfo.
      exists w'. reflexivity.
  - intros Hreq Hnet Hcode.
    destruct (fetch_after_client (UnmarshalConfig lib) _ _ _ _ _ _ _ _
                Hc Hreq Hnet) as (w' & Hf & _).
    rewrite GetSettings_unfold, Hc, Hf. unfold fetchResult.
    apply Z.eqb_neq in Hcode. rewrite Hcode. exists w'. reflexivity.
  - intros url. apply statusError_message.
  - intros Ht Hn Hns.
    split; apply statusError_message;
      rewrite percentFree_app, (getBaseURL_percentFree _ _ _ Ht Hn Hns);
      reflexivity.
Qed.

(** C9 fails on [GetHealth]: when the status request is answered with a
    status code of 400 or more, [getBodyOK] returns before the release of
    the body is deferred, and the body this call opened is neither drained
    nor closed when [GetHealth] returns. *)
Theorem GetHealth_leaves_body_open tdc tc ordinal w r :
  IsTLSClusterEnabled tc = false ->
  newRequestErr lib "GET" (getBaseURL tdc tc ordinal +:+ "/status") = None ->
  network w {| Timeout := timeout; Transport := None |}
          {| Method := "GET"; URL := getBaseURL tdc tc ordinal +:+ "/status" |}
  = inl r ->
  400 <= wireStatus r ->
  exists w',
    GetHealth lib tdc tc ordinal w = Ok (false, None) w'
    /\ bodies w' !! length (bodies w)
       = Some {| content := wireBody r; readErr := wireReadErr r;
                 drained := false; closed := false |}
    /\ length (bodies w') = S (length (bodies w)).
Proof.
  intros Htls Hreq Hnet Hcode.
  rewrite GetHealth_unfold, (getHTTPClient_plain _ _ _ Htls).
  unfold getBodyOK, ClientGet, NewRequest. rewrite Hreq.
  unfold bind at 1. rewrite (Do_answered _ _ _ _ Hnet). cbn [StatusCode Body].
  apply Z.leb_le in Hcode. rewrite Hcode.
  eexists. split; [reflexivity|]. split; [apply opened_body|].
  unfold opened. simpl. rewrite length_app. simpl. lia.
Qed.

(** On every path of [GetInfo] and [GetSettings] that got an answer, the
    body is released when the operation returns. *)
Lemma GetInfo_GetSettings_release tdc tc ordinal w c w1 r :
  getHTTPClient lib tdc tc w = Ok (Some c, None) w1 ->
  (newRequestErr lib "POST" (getBaseURL tdc tc ordinal +:+ "/info") = None ->
   network w c {| Method := "POST"; URL := getBaseURL tdc tc ordinal +:+ "/info" |}
   = inl r ->
   exists res w' st,
     GetInfo lib tdc tc ordinal w = Ok res w'
     /\ bodies w' !! length (bodies w) = Some st /\ released st)
  /\ (newRequestErr lib "GET" (getBaseURL tdc tc ordinal +:+ "/settings") = None ->
      network w c {| Method := "GET";
                     URL := getBaseURL tdc tc ordinal +:+ "/settings" |}
      = inl r ->
      exists res w' st,
        GetSettings lib tdc tc ordinal w = Ok res w'
        /\ bodies w' !! length (bodies w) = Some st /\ released st).
Proof.
  intros Hc. split; intros Hreq Hnet.
  - destruct (fetch_after_client (UnmarshalDBInfo lib) _ _ _ _ _ _ _ _
                Hc Hreq Hnet) as (w' & Hf & st & Hst).
    rewrite GetInfo_unfold, Hc, Hf. eauto.
  - destruct (fetch_after_client (UnmarshalConfig lib) _ _ _ _ _ _ _ _
                Hc Hreq Hnet) as (w' & Hf & st & Hst).
    rewrite GetSettings_unfold, Hc, Hf. eauto.
Qed.

End Ops.

(** ** The scenarios, run *)

(** C6, as stated, fails: on the TLS cluster whose secret has no private
    key, [GetHealth] returns an error to its caller. *)
Lemma GetHealth_surfaces_client_error :
  ~ (forall lib tdc tc ordinal (w : World lib),
       exists healthy w', GetHealth lib tdc tc ordinal w = Ok (healthy, None) w').
Proof.
  intros H.
  destruct (H demoLib (demoControl secretNoKey) (demoCluster true) 1
              (demoNet (demoNetwork 200 []))) as (healthy & w' & Hrun).
  rewrite GetHealth_unfold in Hrun.
  rewrite (getHTTPClient_missing demoLib (demoControl secretNoKey)
             (demoCluster true) (demoNet (demoNetwork 200 [])) secretNoKey
             eq_refl eq_refl)
    in Hrun; [discriminate Hrun|].
  right. vm_compute. reflexivity.
Qed.

Lemma GetHealth_outcome_witness :
  (exists w',
     GetHealth demoLib (demoControl secretNoKey) (demoCluster false) 1
               (demoNet (demoNetwork 200 []))
     = Ok (true, None) w')
  /\ (exists w',
       GetHealth demoLib (demoControl secretNoKey) (demoCluster false) 1
                 (demoNet (demoBrokenBody 200))
       = Ok (false, None) w').
Proof.
  split.
  - destruct (GetHealth_outcome demoLib (demoControl secretNoKey)
                (demoCluster false) 1 (demoNet (demoNetwork 200 [])))
      as (healthy & err & w' & Hrun & _ & Hc & _).
    destruct (Hc plainClient (demoNet (demoNetwork 200 [])) eq_refl)
      as [-> Hiff].
    assert (healthy = true) as ->.
    { apply Hiff. eexists. repeat split; reflexivity. }
    exists w'. exact Hrun.
  - destruct (GetHealth_outcome demoLib (demoControl secretNoKey)
                (demoCluster false) 1 (demoNet (demoBrokenBody 200)))
      as (healthy & err & w' & Hrun & _ & Hc & _).
    destruct (Hc plainClient (demoNet (demoBrokenBody 200)) eq_refl)
      as [-> Hiff].
    assert (healthy = false) as ->.
    { destruct healthy; [|reflexivity].
      destruct (proj1 Hiff eq_refl) as (r & _ & Hnet & _ & Hread).
      injection Hnet as <-. discriminate Hread. }
    exists w'. exact Hrun.
Defined.

Lemma GetInfo_GetSettings_status_witness :
  (exists w',
     GetInfo demoLib (demoControl secretNoKey) (demoCluster false) 1
             (demoNet (demoNetwork 503 []))
     = Ok (None, Some (statusError demoLib 503 (demoURL +:+ "/info"))) w')
  /\ Error (statusError demoLib 503 (demoURL +:+ "/info"))
     = "Error response 503 URL: " +:+ demoURL +:+ "/info"
  /\ (exists w',
       GetInfo demoLib (demoControl secretNoKey) (demoCluster false) 1
               (demoNet (demoNetwork 200 ownerBody))
       = Ok (Some {| IsOwner := true |}, None) w').
Proof.
  split; [|split].
  - apply (GetInfo_GetSettings_status demoLib (demoControl secretNoKey)
             (demoCluster false) 1 (demoNet (demoNetwork 503 [])) plainClient
             (demoNet (demoNetwork 503 []))
             {| wireStatus := 503; wireBody := []; wireReadErr := None |}
             eq_refl); [reflexivity|reflexivity|]. simpl. lia.
  - apply (GetInfo_GetSettings_status demoLib (demoControl secretNoKey)
             (demoCluster false) 1 (demoNet (demoNetwork 503 [])) plainClient
             (demoNet (demoNetwork 503 []))
             {| wireStatus := 503; wireBody := []; wireReadErr := None |}
             eq_refl); reflexivity.
  - apply (GetInfo_GetSettings_status demoLib (demoControl secretNoKey)
             (demoCluster false) 1 (demoNet (demoNetwork 200 ownerBody))
             plainClient (demoNet (demoNetwork 200 ownerBody))
             {| wireStatus := 200; wireBody := ownerBody; wireReadErr := None |}
             eq_refl); reflexivity.
Defined.

Lemma missing_credential_is_fatal_witness :
  exists w',
    GetHealth demoLib (demoControl secretNoKey) (demoCluster true) 1
              (demoNet (demoNetwork 200 []))
    = Ok (false, Some (missingCredential demoLib (demoCluster true))) w'
    /\ GetInfo demoLib (demoControl secretNoKey) (demoCluster true) 1
               (demoNet (demoNetwork 200 []))
       = Ok (None, Some (missingCredential demoLib (demoCluster true))) w'
    /\ GetSettings demoLib (demoControl secretNoKey) (demoCluster true) 1
                   (demoNet (demoNetwork 200 []))
       = Ok (None, Some (missingCredential demoLib (demoCluster true))) w'
    /\ requests w' = requests (demoNet (demoNetwork 200 []))
    /\ bodies w' = bodies (demoNet (demoNetwork 200 []))
    /\ secretGets w'
       = secretGets (demoNet (demoNetwork 200 []))
         ++ [(Namespace (tcMeta (demoCluster true)),
              ClusterClientTLSSecretName demoLib (Name (tcMeta (demoCluster true))))].
Proof.
  apply (missing_credential_is_fatal demoLib (demoControl secretNoKey)
           (demoCluster true) 1 (demoNet (demoNetwork 200 [])) secretNoKey).
  - reflexivity.
  - reflexivity.
  - right. vm_compute. reflexivity.
Defined.

Lemma GetHealth_leaves_body_open_witness :
  exists w',
    GetHealth demoLib (demoControl secretNoKey) (demoCluster false) 1
              (demoNet (demoNetwork 404 (list_byte_of_string "not found")))
    = Ok (false, None) w'
    /\ bodies w' !! 0%nat
       = Some {| content := list_byte_of_string "not found"; readErr := None;
                 drained := false; closed := false |}
    /\ length (bodies w') = 1%nat.
Proof.
  apply (GetHealth_leaves_body_open demoLib (demoControl secretNoKey)
           (demoCluster false) 1
           (demoNet (demoNetwork 404 (list_byte_of_string "not found")))
           {| wireStatus := 404; wireBody := list_byte_of_string "not found";
              wireReadErr := None |}).
  - reflexivity.
  - reflexivity.
  - reflexivity.
  - simpl. lia.
Defined.

End ClientProofs.

(** * More on the status updater: what one call does, whatever the store
      and the lister answer *)

Module UpdaterExtras.

Import retry TiKVGroupControl UpdaterProofs.

Section Outcome.
Context {Sp St : Type}.
Implicit Types (rtc : realTiKVGroupControl Sp St) (w : World Sp St)
  (v : TiKVGroup Sp St) (newStatus oldStatus : option St).

(** X1. [UpdateTiKVGroup] makes at least one write and at most
    [Steps DefaultRetry].  The error it returns is made of the store's
    answer to the last write: nil when that write was accepted, the error of
    that write when it failed, except that for the sentinel
    [wait.ErrWaitTimeout] the error of the write before it is returned, nil
    when it was the first write. *)
Theorem UpdateTiKVGroup_returns_last_answer rtc tg newStatus oldStatus w v0 :
  heap w !! tg = Some v0 ->
  listerValid rtc (heap w) (GetNamespace v0) (GetName v0) ->
  exists up err w',
    UpdateTiKVGroup rtc tg newStatus oldStatus w = Ok (up, err) w'
    /\ (1 <= length (writesSince w w') <= Steps DefaultRetry)%nat
    /\ err = match (response rtc w v0 (pred (length (writesSince w w')))).2 with
             | None => None
             | Some e =>
                 if isErrWaitTimeout e then
                   match pred (length (writesSince w w')) with
                   | O => None
                   | S j => (response rtc w v0 j).2
                   end
                 else Some e
             end.
Proof.
  intros Htg Hvalid.
  destruct (UpdateTiKVGroup_run rtc tg newStatus oldStatus w v0 Htg Hvalid)
    as (up & err & w' & m & Hrun & Hm & _ & Hlen & Herr & _).
  exists up, err, w'. rewrite Hlen. auto.
Qed.

(** X2. The object pointer [UpdateTiKVGroup] returns is what the [Update] of
    its last write handed back, with or without an error: nil when the
    client handed back nil with the error of that write, and else a pointer
    to an object that holds the store's answer to that write. *)
Theorem UpdateTiKVGroup_result_of_last_write rtc tg newStatus oldStatus w v0 :
  heap w !! tg = Some v0 ->
  listerValid rtc (heap w) (GetNamespace v0) (GetName v0) ->
  exists up err w',
    UpdateTiKVGroup rtc tg newStatus oldStatus w = Ok (up, err) w'
    /\ if nilAnswer rtc w v0 (pred (length (writesSince w w')))
       then up = None
       else exists p,
              up = Some p
              /\ heap w' !! p
                 = Some (response rtc w v0 (pred (length (writesSince w w')))).1.
Proof.
  intros Htg Hvalid.
  destruct (UpdateTiKVGroup_run rtc tg newStatus oldStatus w v0 Htg Hvalid)
    as (up & err & w' & m & Hrun & _ & _ & Hlen & _ & _ & Hup & _).
  exists up, err, w'. rewrite Hlen. split; [exact Hrun|exact Hup].
Qed.

(** X3. The lister is looked up exactly once after every write that failed,
    with the namespace and the name of the object passed in: also after the
    last write of an exhausted budget and after a failure that is not a
    conflict, when no retry follows; never after the write that was
    accepted.  The count goes by the store's answer to the last write, not
    by the error the call returns. *)
Theorem UpdateTiKVGroup_lookups rtc tg newStatus oldStatus w v0 :
  heap w !! tg = Some v0 ->
  listerValid rtc (heap w) (GetNamespace v0) (GetName v0) ->
  exists up err w',
    UpdateTiKVGroup rtc tg newStatus oldStatus w = Ok (up, err) w'
    /\ lookups w'
       = lookups w
         ++ replicate
              (match (response rtc w v0 (pred (length (writesSince w w')))).2 with
               | None => pred (length (writesSince w w'))
               | Some _ => length (writesSince w w')
               end) (GetNamespace v0, GetName v0).
Proof.
  intros Htg Hvalid.
  destruct (UpdateTiKVGroup_run rtc tg newStatus oldStatus w v0 Htg Hvalid)
    as (up & err & w' & m & Hrun & _ & _ & Hlen & _ & _ & _ & Hl & _).
  exists up, err, w'. rewrite Hlen. auto.
Qed.

(** X4. A write is repeated only after a conflict: every write but the last
    was answered with a conflict, and when the call stops before the budget
    is used up, the answer to its last write is no conflict (it was accepted
    or failed otherwise). *)
Theorem UpdateTiKVGroup_retries_conflicts_only rtc tg newStatus oldStatus w v0 :
  heap w !! tg = Some v0 ->
  listerValid rtc (heap w) (GetNamespace v0) (GetName v0) ->
  exists up err w',
    UpdateTiKVGroup rtc tg newStatus oldStatus w = Ok (up, err) w'
    /\ (forall k, (k < pred (length (writesSince w w')))%nat ->
          conflicted (response rtc w v0 k) = true)
    /\ ((length (writesSince w w') < Steps DefaultRetry)%nat ->
        conflicted (response rtc w v0 (pred (length (writesSince w w')))) = false).
Proof.
  intros Htg Hvalid.
  destruct (UpdateTiKVGroup_run rtc tg newStatus oldStatus w v0 Htg Hvalid)
    as (up & err & w' & m & Hrun & _ & _ & Hlen & _ & _ & _ & _ & _ & Hc & Hs).
  exists up, err, w'. rewrite Hlen. auto.
Qed.

(** X5. Every write goes to the namespace of the object passed in, read
    once at the call, and the first write sends that object as it is. *)
Theorem UpdateTiKVGroup_writes_namespace rtc tg newStatus oldStatus w v0 :
  heap w !! tg = Some v0 ->
  listerValid rtc (heap w) (GetNamespace v0) (GetName v0) ->
  exists up err w',
    UpdateTiKVGroup rtc tg newStatus oldStatus w = Ok (up, err) w'
    /\ Forall (fun u => u.1 = GetNamespace v0) (writesSince w w')
    /\ head (writesSince w w') = Some (GetNamespace v0, v0).
Proof.
  intros Htg Hvalid.
  destruct (UpdateTiKVGroup_run rtc tg newStatus oldStatus w v0 Htg Hvalid)
    as (up & err & w' & m & Hrun & Hm & Hu & _).
  exists up, err, w'. rewrite (writesSince_app _ _ _ Hu).
  split; [exact Hrun|]. split.
  - unfold sent. apply Forall_forall. intros u Hin.
    apply list_elem_of_In, in_map_iff in Hin. destruct Hin as (k & <- & _).
    reflexivity.
  - destruct m as [|m]; [lia|]. unfold sent. simpl.
    rewrite (working_0 rtc w v0). reflexivity.
Qed.

End Outcome.

Lemma UpdateTiKVGroup_returns_last_answer_witness :
  exists up err w',
    UpdateTiKVGroup (demoStuck 1) 0%nat None None demoWorld = Ok (up, err) w'
    /\ (1 <= length (writesSince demoWorld w') <= Steps DefaultRetry)%nat
    /\ err = match (response (demoStuck 1) demoWorld demoLive
                             (pred (length (writesSince demoWorld w')))).2 with
             | None => None
             | Some e =>
                 if isErrWaitTimeout e then
                   match pred (length (writesSince demoWorld w')) with
                   | O => None
                   | S j => (response (demoStuck 1) demoWorld demoLive j).2
                   end
                 else Some e
             end.
Proof.
  apply (UpdateTiKVGroup_returns_last_answer (demoStuck 1) 0%nat None None
           demoWorld demoLive).
  - exact demo_live.
  - exact (demo_stuck_listerValid 1).
Defined.

Lemma UpdateTiKVGroup_result_of_last_write_witness :
  exists up err w',
    UpdateTiKVGroup (demoBare 7) 0%nat None None demoWorld = Ok (up, err) w'
    /\ if nilAnswer (demoBare 7) demoWorld demoLive
            (pred (length (writesSince demoWorld w')))
       then up = None
       else exists p,
              up = Some p
              /\ heap w' !! p
                 = Some (response (demoBare 7) demoWorld demoLive
                                  (pred (length (writesSince demoWorld w')))).1.
Proof.
  apply (UpdateTiKVGroup_result_of_last_write (demoBare 7) 0%nat None None
           demoWorld demoLive).
  - exact demo_live.
  - exact (demo_bare_listerValid 7).
Defined.

Lemma UpdateTiKVGroup_lookups_witness :
  exists up err w',
    UpdateTiKVGroup (demoStuck 0) 0%nat None None demoWorld = Ok (up, err) w'
    /\ lookups w'
       = lookups demoWorld
         ++ replicate
              (match (response (demoStuck 0) demoWorld demoLive
                               (pred (length (writesSince demoWorld w')))).2 with
               | None => pred (length (writesSince demoWorld w'))
               | Some _ => length (writesSince demoWorld w')
               end) (GetNamespace demoLive, GetName demoLive).
Proof.
  apply (UpdateTiKVGroup_lookups (demoStuck 0) 0%nat None None
           demoWorld demoLive).
  - exact demo_live.
  - exact (demo_stuck_listerValid 0).
Defined.

Lemma UpdateTiKVGroup_retries_conflicts_only_witness :
  exists up err w',
    UpdateTiKVGroup (demoRtc 2) 0%nat None None demoWorld = Ok (up, err) w'
    /\ (forall k, (k < pred (length (writesSince demoWorld w')))%nat ->
          conflicted (response (demoRtc 2) demoWorld demoLive k) = true)
    /\ ((length (writesSince demoWorld w') < Steps DefaultRetry)%nat ->
        conflicted (response (demoRtc 2) demoWorld demoLive
                             (pred (length (writesSince demoWorld w')))) = false).
Proof.
  apply (UpdateTiKVGroup_retries_conflicts_only (demoRtc 2) 0%nat None None
           demoWorld demoLive).
  - exact demo_live.
  - exact (demo_listerValid 2).
Defined.

Lemma UpdateTiKVGroup_writes_namespace_witness :
  exists up err w',
    UpdateTiKVGroup (demoRtc 2) 0%nat None None demoWorld = Ok (up, err) w'
    /\ Forall (fun u => u.1 = GetNamespace demoLive) (writesSince demoWorld w')
    /\ head (writesSince demoWorld w') = Some (GetNamespace demoLive, demoLive).
Proof.
  apply (UpdateTiKVGroup_writes_namespace (demoRtc 2) 0%nat None None
           demoWorld demoLive).
  - exact demo_live.
  - exact (demo_listerValid 2).
Defined.

End UpdaterExtras.

(** * Properties of the fake member status client *)

Module FakeProofs.

Import TiDBControl FakeControl ClientProofs.

(** A member key [c ++ "-tidb-" ++ d], [d] a numeral, determines [c] and
    [d]. *)
Lemma pod_overlap (k d1 d2 : list ascii) :
  forallb isNumeral d2 = true ->
  tidbSep ++ d2 = k ++ tidbSep ++ d1 -> k = [].
Proof.
  intros Hd H. destruct k as [|a k]; [reflexivity|]. exfalso.
  assert (Hlk : (tidbSep ++ d2) !! S (S (length k)) = Some "t"%char).
  { rewrite H. rewrite lookup_app_r by (simpl; lia).
    replace (S (S (length k)) - length (a :: k))%nat with 1%nat by (simpl; lia).
    reflexivity. }
  destruct (length k) as [|[|[|[|n]]]]; try discriminate Hlk.
  change (S (S (S (S (S (S n)))))) with (length tidbSep + n)%nat in Hlk.
  rewrite lookup_app_r in Hlk by lia.
  replace (length tidbSep + n - length tidbSep)%nat with n in Hlk by lia.
  pose proof (numeral_lookup _ _ _ Hd Hlk) as Hn. discriminate Hn.
Qed.

Lemma pod_unique (c1 c2 d1 d2 : list ascii) :
  forallb isNumeral d1 = true ->
  forallb isNumeral d2 = true ->
  c1 ++ tidbSep ++ d1 = c2 ++ tidbSep ++ d2 ->
  c1 = c2 /\ d1 = d2.
Proof.
  intros Hd1 Hd2 H.
  destruct (app_eq_inv _ _ _ _ H) as [(k & Hc & Hr)|(k & Hc & Hr)].
  - pose proof (pod_overlap k d1 d2 Hd2 Hr) as Hk. subst k.
    rewrite app_nil_r in Hc. change ([] ++ tidbSep ++ d1) with (tidbSep ++ d1) in Hr.
    apply app_inv_head in Hr. auto.
  - pose proof (pod_overlap k d2 d1 Hd1 Hr) as Hk. subst k.
    rewrite app_nil_r in Hc. change ([] ++ tidbSep ++ d2) with (tidbSep ++ d2) in Hr.
    apply app_inv_head in Hr. auto.
Qed.

Lemma podName_inj tc1 tc2 o1 o2 :
  podName tc1 o1 = podName tc2 o2 -> GetName tc1 = GetName tc2 /\ o1 = o2.
Proof.
  unfold podName, TiDBMemberName. intros H. apply (f_equal chars) in H.
  rewrite !chars_app in H. rewrite <- !app_assoc in H.
  destruct (pod_unique _ _ _ _ (itoa_numeral o1) (itoa_numeral o2) H)
    as [Hn Ho].
  split; [apply chars_inj, Hn|apply itoa_inj, chars_inj, Ho].
Qed.

Section Fake.
Context {Config : Type}.
Implicit Types (w : World Config) (tc : TidbCluster).

(** X6. [SetHealth] keeps the caller's map by reference: an entry written
    into the map after [SetHealth] is what [GetHealth] then reports for that
    member, with a nil error; before any entry is written, the member is
    reported as the map has it, unhealthy when it has no entry. *)
Theorem fake_health_reads_through_map w m hm tc ordinal health :
  goMaps w !! m = Some hm ->
  (exists w',
     bind (SetHealth (Some m))
       (fun _ => bind (mapAssign m (podName tc ordinal) health)
                   (fun _ => GetHealth tc ordinal)) w
     = Ok (health, None) w')
  /\ bind (SetHealth (Some m)) (fun _ => GetHealth tc ordinal) w
     = Ok (default false (hm !! podName tc ordinal), None) (healthSet m w).
Proof.
  intros Hm. split.
  - unfold bind, SetHealth, modify, mapAssign, GetHealth. simpl.
    rewrite Hm. simpl. rewrite lookup_insert_eq, lookup_insert_eq.
    eexists. reflexivity.
  - unfold bind, SetHealth, modify, GetHealth. simpl. rewrite Hm.
    destruct (hm !! podName tc ordinal); reflexivity.
Qed.

(** X7. Members do not share a fixture: writing the entry of one member
    leaves what [GetHealth] reports for a member of another cluster name or
    ordinal as it was. *)
Theorem fake_health_members_independent w m hm tc1 o1 tc2 o2 health :
  healthInfo (ftd w) = Some m ->
  goMaps w !! m = Some hm ->
  GetName tc1 <> GetName tc2 \/ o1 <> o2 ->
  exists r w',
    GetHealth tc2 o2 w = Ok r w
    /\ bind (mapAssign m (podName tc1 o1) health)
         (fun _ => GetHealth tc2 o2) w = Ok r w'.
Proof.
  intros Hh Hm Hne.
  assert (Hkey : podName tc1 o1 <> podName tc2 o2).
  { intros Heq. destruct (podName_inj _ _ _ _ Heq) as [Hn Ho].
    destruct Hne as [Hne|Hne]; contradiction. }
  unfold bind, mapAssign, GetHealth. rewrite Hm, Hh. cbn [ftd goMaps].
  rewrite Hh, Hm, lookup_insert_eq, (lookup_insert_ne _ _ _ _ Hkey).
  destruct (hm !! podName tc2 o2); eexists _, _; split; reflexivity.
Qed.

(** X8. The fake [GetHealth] never returns an error and changes nothing; it
    reports a member healthy only when a map is set and holds [true] for the
    member, so a nil map and a missing entry both give unhealthy. *)
Theorem fake_health_never_fails w tc ordinal :
  (forall m, healthInfo (ftd w) = Some m -> is_Some (goMaps w !! m)) ->
  exists health,
    GetHealth tc ordinal w = Ok (health, None) w
    /\ (health = true <->
        exists m hm, healthInfo (ftd w) = Some m /\ goMaps w !! m = Some hm
                     /\ hm !! podName tc ordinal = Some true).
Proof.
  intros Hvalid. unfold GetHealth.
  destruct (healthInfo (ftd w)) as [m|] eqn:Hh.
  - destruct (Hvalid m eq_refl) as [hm Hm]. rewrite Hm.
    destruct (hm !! podName tc ordinal) as [b|] eqn:Hb.
    + exists b. split; [reflexivity|]. split.
      * intros ->. eauto.
      * intros (m' & hm' & [= <-] & Hm' & Hb'). congruence.
    + exists false. split; [reflexivity|]. split; [discriminate|].
      intros (m' & hm' & [= <-] & Hm' & Hb'). congruence.
  - exists false. split; [reflexivity|]. split; [discriminate|].
    intros (m' & hm' & Hm' & _). discriminate Hm'.
Qed.

End Fake.

Lemma demoFake_map : goMaps demoFake !! 0%nat = Some ∅.
Proof. vm_compute. reflexivity. Defined.

Lemma fake_health_reads_through_map_witness :
  (exists w',
     bind (SetHealth (Some 0%nat))
       (fun _ => bind (mapAssign 0%nat (podName (demoCluster false) 1) true)
                   (fun _ => GetHealth (demoCluster false) 1)) demoFake
     = Ok (true, None) w')
  /\ bind (SetHealth (Some 0%nat)) (fun _ => GetHealth (demoCluster false) 1)
          demoFake
     = Ok (default false ((∅ : gmap string bool) !! podName (demoCluster false) 1),
           None) (healthSet 0%nat demoFake).
Proof.
  apply (fake_health_reads_through_map demoFake 0%nat ∅ (demoCluster false) 1
           true demoFake_map).
Defined.

Lemma fake_health_members_independent_witness :
  exists r w',
    GetHealth (demoCluster false) 2 (healthSet 0%nat demoFake)
    = Ok r (healthSet 0%nat demoFake)
    /\ bind (mapAssign 0%nat (podName (demoCluster false) 1) true)
         (fun _ => GetHealth (demoCluster false) 2) (healthSet 0%nat demoFake)
       = Ok r w'.
Proof.
  apply (fake_health_members_independent (healthSet 0%nat demoFake) 0%nat ∅
           (demoCluster false) 1 (demoCluster false) 2 true).
  - reflexivity.
  - exact demoFake_map.
  - right. discriminate.
Defined.

Lemma fake_health_never_fails_witness :
  exists health,
    GetHealth (demoCluster false) 1 demoFake = Ok (health, None) demoFake
    /\ (health = true <->
        exists m hm, healthInfo (ftd demoFake) = Some m
                     /\ goMaps demoFake !! m = Some hm
                     /\ hm !! podName (demoCluster false) 1 = Some true).
Proof.
  apply (fake_health_never_fails demoFake (demoCluster false) 1).
  intros m H. discriminate H.
Defined.

End FakeProofs.

(** * More on the member status client *)

Module ClientExtras.

Import TiDBControl ClientProofs.

Section Effects.
Variable lib : Library.
Implicit Types (w : World lib) (c : HTTPClient lib) (tdc : defaultTiDBControl)
  (tc : TidbCluster) (r : WireResponse) (st : BodyState).

Lemma setBody_snoc b st' w l x :
  bodies w = l ++ [x] -> b = length l ->
  bodies (setBody lib b st' w) = l ++ [st'].
Proof.
  intros Hb ->. unfold setBody. simpl. rewrite Hb.
  rewrite insert_app_r_alt by lia. rewrite Nat.sub_diag. reflexivity.
Qed.

Lemma opened_bodies r req w :
  bodies (opened lib r req w)
  = bodies w ++ [{| content := wireBody r; readErr := wireReadErr r;
                    drained := false; closed := false |}].
Proof. reflexivity. Qed.

(** The request of [GetInfo] and [GetSettings], answered: the result, and
    the one body it opened, closed, after the bodies that were there. *)
Lemma fetchJSON_answered {A : Type} (unmarshal : bytes -> A + error)
    c method url w r :
  newRequestErr lib method url = None ->
  network w c {| Method := method; URL := url |} = inl r ->
  exists st w',
    fetchJSON lib unmarshal c method url w = Ok (fetchResult lib unmarshal r url) w'
    /\ bodies w' = bodies w ++ [st]
    /\ closed st = true
    /\ requests w' = requests w ++ [{| Method := method; URL := url |}]
    /\ secretGets w' = secretGets w.
Proof.
  intros Hreq Hnet. unfold fetchJSON, fetchResult, NewRequest. rewrite Hreq.
  unfold bind at 1. rewrite (Do_answered _ _ _ _ _ Hnet). cbn [StatusCode Body].
  unfold deferring. destruct (negb (wireStatus r =? 200)).
  - unfold bind, ret. rewrite (DeferClose_at _ _ _ _ (opened_body _ r _ w)).
    eexists _, _. split; [reflexivity|]. split; [eapply setBody_snoc; [apply opened_bodies|reflexivity]|repeat split].
  - unfold bind.
    rewrite (ReadAll_open _ _ _ _ (opened_body _ r _ w) eq_refl).
    cbn [readErr content closed].
    destruct (wireReadErr r) as [e|]; unfold ret; cbv beta iota.
    + rewrite (DeferClose_at _ _ _ _ (opened_body _ r _ w)).
      eexists _, _. split; [reflexivity|]. split; [eapply setBody_snoc; [apply opened_bodies|reflexivity]|repeat split].
    + assert (Hb := setBody_lookup lib _ _
                {| content := wireBody r; readErr := None; drained := true;
                   closed := false |} _
                (opened_body lib r {| Method := method; URL := url |} w)).
      destruct (unmarshal (wireBody r)); unfold ret; cbv beta iota;
        rewrite (DeferClose_at _ _ _ _ Hb);
        (eexists _, _; split; [reflexivity|];
         split; [eapply setBody_snoc; [|reflexivity];
                 eapply setBody_snoc; [apply opened_bodies|reflexivity]
                |repeat split]).
Qed.

Lemma fetchJSON_rejected {A : Type} (unmarshal : bytes -> A + error)
    c method url w e :
  newRequestErr lib method url = Some e ->
  fetchJSON lib unmarshal c method url w = Ok (None, Some e) w.
Proof. intros H. unfold fetchJSON, NewRequest. rewrite H. reflexivity. Qed.

Lemma fetchJSON_unanswered {A : Type} (unmarshal : bytes -> A + error)
    c method url w e :
  newRequestErr lib method url = None ->
  network w c {| Method := method; URL := url |} = inr e ->
  fetchJSON lib unmarshal c method url w
  = Ok (None, Some e) (unanswered lib {| Method := method; URL := url |} w).
Proof.
  intros Hreq Hnet. unfold fetchJSON, NewRequest. rewrite Hreq.
  unfold bind. rewrite (Do_unanswered _ _ _ _ _ Hnet). reflexivity.
Qed.

(** The request of [GetHealth], answered with a status below 400: the body
    it opened is closed when [getBodyOK] returns, read or not. *)
Lemma getBodyOK_answered c url w r :
  newRequestErr lib "GET" url = None ->
  network w c {| Method := "GET"; URL := url |} = inl r ->
  wireStatus r < 400 ->
  exists st w',
    getBodyOK lib c url w
    = Ok (match wireReadErr r with
          | Some e => ([], Some e)
          | None => (wireBody r, None)
          end) w'
    /\ bodies w' = bodies w ++ [st]
    /\ closed st = true
    /\ requests w' = requests w ++ [{| Method := "GET"; URL := url |}]
    /\ secretGets w' = secretGets w.
Proof.
  intros Hreq Hnet Hcode. unfold getBodyOK, ClientGet, NewRequest. rewrite Hreq.
  unfold bind at 1. rewrite (Do_answered _ _ _ _ _ Hnet). cbn [StatusCode Body].
  apply Z.leb_gt in Hcode. rewrite Hcode. unfold deferring, bind.
  rewrite (ReadAll_open _ _ _ _ (opened_body _ r _ w) eq_refl).
  cbn [readErr content closed].
  destruct (wireReadErr r) as [e|]; unfold ret; cbv beta iota.
  - rewrite (DeferClose_at _ _ _ _ (opened_body _ r _ w)).
    eexists _, _. split; [reflexivity|]. split; [eapply setBody_snoc; [apply opened_bodies|reflexivity]|repeat split].
  - assert (Hb := setBody_lookup lib _ _
              {| content := wireBody r; readErr := None; drained := true;
                 closed := false |} _
              (opened_body lib r {| Method := "GET"; URL := url |} w)).
    rewrite (DeferClose_at _ _ _ _ Hb).
    eexists _, _. split; [reflexivity|].
    split; [eapply setBody_snoc; [|reflexivity];
            eapply setBody_snoc; [apply opened_bodies|reflexivity]
           |repeat split].
Qed.

Lemma fetchResult_one_of {A : Type} (unmarshal : bytes -> A + error) r url :
  (exists info, fetchResult lib unmarshal r url = (Some info, None))
  \/ (exists e, fetchResult lib unmarshal r url = (None, Some e)).
Proof.
  unfold fetchResult. destruct (negb (wireStatus r =? 200)); [eauto|].
  destruct (wireReadErr r); [eauto|]. destruct (unmarshal (wireBody r)); eauto.
Qed.

(** What the world keeps when a client was built. *)
Lemma client_frame tdc tc w c w1 :
  getHTTPClient lib tdc tc w = Ok (Some c, None) w1 ->
  network w1 = network w /\ requests w1 = requests w /\ bodies w1 = bodies w.
Proof.
  intros Hc. destruct (getHTTPClient_total lib tdc tc w)
    as (w1' & Hshape & Hn & Hr & Hb).
  assert (w1' = w1) as -> by (destruct Hshape as [[c' H]|[e H]]; congruence).
  auto.
Qed.

(** [fetchJSON] always returns, with a payload or an error and never both,
    after sending what [sentIf] says. *)
Lemma fetchJSON_total {A : Type} (unmarshal : bytes -> A + error)
    c method url w :
  exists res w',
    fetchJSON lib unmarshal c method url w = Ok res w'
    /\ ((exists info, res = (Some info, None)) \/ (exists e, res = (None, Some e)))
    /\ requests w' = requests w ++ sentIf lib method url.
Proof.
  unfold sentIf. destruct (newRequestErr lib method url) as [e|] eqn:Hreq.
  - rewrite (fetchJSON_rejected _ _ _ _ _ _ Hreq). eexists _, _.
    split; [reflexivity|]. rewrite app_nil_r. eauto.
  - destruct (network w c {| Method := method; URL := url |}) as [r|e] eqn:Hnet.
    + destruct (fetchJSON_answered unmarshal c method url w r Hreq Hnet)
        as (st & w' & Hf & _ & _ & Hr & _).
      rewrite Hf. eexists _, _. split; [reflexivity|].
      split; [apply fetchResult_one_of|exact Hr].
    + rewrite (fetchJSON_unanswered _ _ _ _ _ _ Hreq Hnet). eexists _, _.
      split; [reflexivity|]. split; [eauto|reflexivity].
Qed.

Lemma getBodyOK_total c url w :
  exists res w',
    getBodyOK lib c url w = Ok res w'
    /\ requests w' = requests w ++ sentIf lib "GET" url.
Proof.
  unfold sentIf. destruct (newRequestErr lib "GET" url) as [e|] eqn:Hreq.
  - unfold getBodyOK, ClientGet, NewRequest. rewrite Hreq. eexists _, _.
    split; [reflexivity|]. rewrite app_nil_r. reflexivity.
  - destruct (network w c {| Method := "GET"; URL := url |}) as [r|e] eqn:Hnet.
    + destruct (Z_lt_ge_dec (wireStatus r) 400) as [Hlt|Hge].
      * destruct (getBodyOK_answered c url w r Hreq Hnet Hlt)
          as (st & w' & Hf & _ & _ & Hr & _).
        rewrite Hf. eexists _, _. split; [reflexivity|exact Hr].
      * unfold getBodyOK, ClientGet, NewRequest. rewrite Hreq.
        unfold bind at 1. rewrite (Do_answered _ _ _ _ _ Hnet).
        cbn [StatusCode Body].
        assert (Hc : (400 <=? wireStatus r) = true) by (apply Z.leb_le; lia).
        rewrite Hc. eexists _, _. split; reflexivity.
    + unfold getBodyOK, ClientGet, NewRequest. rewrite Hreq.
      unfold bind. rewrite (Do_unanswered _ _ _ _ _ Hnet).
      eexists _, _. split; reflexivity.
Qed.

(** X9. Every client [getHTTPClient] hands out has the 5 second timeout; it
    has no TLS transport exactly when TLS is disabled for the cluster; the
    secret of the cluster is fetched once when TLS is enabled and not at all
    otherwise; no HTTP request is sent and no body opened. *)
Theorem getHTTPClient_client_shape tdc tc w c w1 :
  getHTTPClient lib tdc tc w = Ok (Some c, None) w1 ->
  Timeout c = timeout
  /\ (Transport c = None <-> IsTLSClusterEnabled tc = false)
  /\ secretGets w1
     = secretGets w
       ++ (if IsTLSClusterEnabled tc
           then [(Namespace (tcMeta tc),
                  ClusterClientTLSSecretName lib (Name (tcMeta tc)))]
           else [])
  /\ requests w1 = requests w
  /\ bodies w1 = bodies w.
Proof.
  unfold getHTTPClient. destruct (IsTLSClusterEnabled tc); simpl.
  - unfold bind, SecretsGet, bind, modify, ret.
    destruct (kubeCli tdc _ _) as [secret|e]; simpl; [|discriminate].
    destruct (Data secret !! TLSCertKey), (Data secret !! TLSPrivateKeyKey);
      try discriminate.
    destruct (X509KeyPair lib _ _); [|discriminate].
    intros [= <- <-]. simpl. repeat split; auto; discriminate.
  - unfold ret. intros [= <- <-]. simpl. rewrite app_nil_r. repeat split; auto.
Qed.

(** X10. With TLS enabled, a secret that holds the certificate and the key
    gives a client whose certificates are the one loaded key pair and whose
    root pool is made from the CA bundle of the secret; a secret without a
    CA bundle is accepted, the pool is then made from empty input. *)
Theorem getHTTPClient_tls_client tdc tc w secret cert key tlsCert :
  IsTLSClusterEnabled tc = true ->
  kubeCli tdc (Namespace (tcMeta tc))
          (ClusterClientTLSSecretName lib (Name (tcMeta tc))) = inl secret ->
  Data secret !! TLSCertKey = Some cert ->
  Data secret !! TLSPrivateKeyKey = Some key ->
  X509KeyPair lib cert key = inl tlsCert ->
  exists pool,
    getHTTPClient lib tdc tc w
    = Ok (Some {| Timeout := timeout;
                  Transport := Some {| RootCAs := pool;
                                       Certificates := [tlsCert] |} |}, None)
         (fetchedSecret lib (Namespace (tcMeta tc))
            (ClusterClientTLSSecretName lib (Name (tcMeta tc))) w)
    /\ (forall ca, Data secret !! ServiceAccountRootCAKey = Some ca ->
          pool = AppendCertsFromPEM lib (NewCertPool lib) ca)
    /\ (Data secret !! ServiceAccountRootCAKey = None ->
        pool = AppendCertsFromPEM lib (NewCertPool lib) []).
Proof.
  intros Htls Hget Hcert Hkey Hpair. unfold getHTTPClient. rewrite Htls. simpl.
  unfold bind, SecretsGet, bind, modify, ret. rewrite Hget, Hcert, Hkey, Hpair.
  eexists. split; [reflexivity|]. split.
  - intros ca ->. reflexivity.
  - intros ->. reflexivity.
Qed.

(** X11. With TLS enabled, an error of the secret store is returned as it is
    by [GetHealth], [GetInfo] and [GetSettings]; the secret was asked for
    once and no HTTP request was sent. *)
Theorem secret_store_error_propagates tdc tc ordinal w e :
  IsTLSClusterEnabled tc = true ->
  kubeCli tdc (Namespace (tcMeta tc))
          (ClusterClientTLSSecretName lib (Name (tcMeta tc))) = inr e ->
  exists w',
    GetHealth lib tdc tc ordinal w = Ok (false, Some e) w'
    /\ GetInfo lib tdc tc ordinal w = Ok (None, Some e) w'
    /\ GetSettings lib tdc tc ordinal w = Ok (None, Some e) w'
    /\ requests w' = requests w
    /\ length (secretGets w') = S (length (secretGets w)).
Proof.
  intros Htls Hget.
  assert (Hc : getHTTPClient lib tdc tc w
               = Ok (None, Some e)
                    (fetchedSecret lib (Namespace (tcMeta tc))
                       (ClusterClientTLSSecretName lib (Name (tcMeta tc))) w)).
  { unfold getHTTPClient. rewrite Htls. simpl.
    unfold bind, SecretsGet, bind, modify, ret. rewrite Hget. reflexivity. }
  eexists. rewrite GetHealth_unfold, GetInfo_unfold, GetSettings_unfold, Hc.
  repeat split; try reflexivity. simpl. rewrite length_app. simpl. lia.
Qed.

(** X12. With TLS enabled, a key pair that does not load makes [GetHealth],
    [GetInfo] and [GetSettings] fail with an error that names the secret and
    ends in the message of the loader; no HTTP request is sent. *)
Theorem key_pair_error_is_fatal tdc tc ordinal w secret cert key e :
  IsTLSClusterEnabled tc = true ->
  kubeCli tdc (Namespace (tcMeta tc))
          (ClusterClientTLSSecretName lib (Name (tcMeta tc))) = inl secret ->
  Data secret !! TLSCertKey = Some cert ->
  Data secret !! TLSPrivateKeyKey = Some key ->
  X509KeyPair lib cert key = inr e ->
  exists w',
    GetHealth lib tdc tc ordinal w = Ok (false, Some (keyPairError lib tc e)) w'
    /\ GetInfo lib tdc tc ordinal w = Ok (None, Some (keyPairError lib tc e)) w'
    /\ GetSettings lib tdc tc ordinal w
       = Ok (None, Some (keyPairError lib tc e)) w'
    /\ requests w' = requests w
    /\ exists prefix, Error (keyPairError lib tc e) = prefix +:+ Error e.
Proof.
  intros Htls Hget Hcert Hkey Hpair.
  assert (Hc : getHTTPClient lib tdc tc w
               = Ok (None, Some (keyPairError lib tc e))
                    (fetchedSecret lib (Namespace (tcMeta tc))
                       (ClusterClientTLSSecretName lib (Name (tcMeta tc))) w)).
  { unfold getHTTPClient. rewrite Htls. simpl.
    unfold bind, SecretsGet, bind, modify, ret.
    rewrite Hget, Hcert, Hkey, Hpair. reflexivity. }
  eexists. rewrite GetHealth_unfold, GetInfo_unfold, GetSettings_unfold, Hc.
  repeat split; try reflexivity.
  exists ("unable to load certificates from secret " +:+ Namespace (tcMeta tc)
          +:+ "/" +:+ ClusterClientTLSSecretName lib (Name (tcMeta tc)) +:+ ": ").
  unfold keyPairError. simpl. rewrite !string_app_assoc. reflexivity.
Qed.

(** X13. A call that has its client sends exactly one HTTP request and
    never retries: [GetHealth] a GET to the base URL followed by [/status],
    [GetInfo] a POST to [/info], [GetSettings] a GET to [/settings],
    whatever comes back; it sends none when [http.NewRequest] rejects the
    URL. *)
Theorem one_request_per_call tdc tc ordinal w c w1 :
  getHTTPClient lib tdc tc w = Ok (Some c, None) w1 ->
  (exists res w',
     GetHealth lib tdc tc ordinal w = Ok res w'
     /\ requests w'
        = requests w ++ sentIf lib "GET" (getBaseURL tdc tc ordinal +:+ "/status"))
  /\ (exists res w',
       GetInfo lib tdc tc ordinal w = Ok res w'
       /\ requests w'
          = requests w ++ sentIf lib "POST" (getBaseURL tdc tc ordinal +:+ "/info"))
  /\ (exists res w',
       GetSettings lib tdc tc ordinal w = Ok res w'
       /\ requests w'
          = requests w
            ++ sentIf lib "GET" (getBaseURL tdc tc ordinal +:+ "/settings")).
Proof.
  intros Hc. destruct (client_frame _ _ _ _ _ Hc) as (_ & Hr & _).
  rewrite GetHealth_unfold, GetInfo_unfold, GetSettings_unfold, Hc.
  rewrite <- Hr. split; [|split].
  - destruct (getBodyOK_total c (getBaseURL tdc tc ordinal +:+ "/status") w1)
      as ([body err] & w' & Hb & Hreq).
    rewrite Hb. eexists _, _. split; [reflexivity|exact Hreq].
  - destruct (fetchJSON_total (UnmarshalDBInfo lib) c "POST"
                (getBaseURL tdc tc ordinal +:+ "/info") w1)
      as (res & w' & Hf & _ & Hreq).
    rewrite Hf. eauto.
  - destruct (fetchJSON_total (UnmarshalConfig lib) c "GET"
                (getBaseURL tdc tc ordinal +:+ "/settings") w1)
      as (res & w' & Hf & _ & Hreq).
    rewrite Hf. eauto.
Qed.

(** X14. [GetInfo] and [GetSettings] always return, and what they return is
    a payload with a nil error or no payload with an error: never both and
    never neither. *)
Theorem GetInfo_GetSettings_one_of tdc tc ordinal w :
  (exists res w',
     GetInfo lib tdc tc ordinal w = Ok res w'
     /\ ((exists info, res = (Some info, None))
         \/ (exists e, res = (None, Some e))))
  /\ (exists res w',
       GetSettings lib tdc tc ordinal w = Ok res w'
       /\ ((exists cfg, res = (Some cfg, None))
           \/ (exists e, res = (None, Some e)))).
Proof.
  rewrite GetInfo_unfold, GetSettings_unfold.
  destruct (getHTTPClient_total lib tdc tc w) as (w1 & [[c Hc]|[e Hc]] & _);
    rewrite Hc.
  - split.
    + destruct (fetchJSON_total (UnmarshalDBInfo lib) c "POST"
                  (getBaseURL tdc tc ordinal +:+ "/info") w1)
        as (res & w' & Hf & Hone & _). eauto.
    + destruct (fetchJSON_total (UnmarshalConfig lib) c "GET"
                  (getBaseURL tdc tc ordinal +:+ "/settings") w1)
        as (res & w' & Hf & Hone & _). eauto.
  - split; eexists _, _; split; eauto.
Qed.

(** X15. The two status checks differ: an answer with a status code below
    400 other than 200 (a 204, say) whose body is read makes [GetHealth]
    report healthy, while the same answer makes [GetInfo] fail with the
    status error. *)
Theorem health_and_info_disagree tdc tc ordinal w r :
  IsTLSClusterEnabled tc = false ->
  newRequestErr lib "GET" (getBaseURL tdc tc ordinal +:+ "/status") = None ->
  newRequestErr lib "POST" (getBaseURL tdc tc ordinal +:+ "/info") = None ->
  network w {| Timeout := timeout; Transport := None |}
          {| Method := "GET"; URL := getBaseURL tdc tc ordinal +:+ "/status" |}
  = inl r ->
  network w {| Timeout := timeout; Transport := None |}
          {| Method := "POST"; URL := getBaseURL tdc tc ordinal +:+ "/info" |}
  = inl r ->
  wireStatus r < 400 ->
  wireStatus r <> 200 ->
  wireReadErr r = None ->
  (exists w', GetHealth lib tdc tc ordinal w = Ok (true, None) w')
  /\ (exists w',
       GetInfo lib tdc tc ordinal w
       = Ok (None, Some (statusError lib (wireStatus r)
                           (getBaseURL tdc tc ordinal +:+ "/info"))) w').
Proof.
  intros Htls Hreq1 Hreq2 Hnet1 Hnet2 Hlt Hne Hread.
  rewrite GetHealth_unfold, GetInfo_unfold, (getHTTPClient_plain _ _ _ _ Htls).
  split.
  - destruct (getBodyOK_answered _ _ _ _ Hreq1 Hnet1 Hlt) as (st & w' & Hb & _).
    rewrite Hb, Hread. eauto.
  - destruct (fetchJSON_answered (UnmarshalDBInfo lib) _ _ _ _ _ Hreq2 Hnet2)
      as (st & w' & Hf & _).
    rewrite Hf. unfold fetchResult. apply Z.eqb_neq in Hne. rewrite Hne. eauto.
Qed.

(** X16. The body of an answer to [GetInfo] or [GetSettings], whatever its
    status, and of an answer below 400 to [GetHealth], is closed when the
    call returns; it is the one body the call opened, and the bodies that
    were open before are not touched. *)
Theorem answered_bodies_are_closed tdc tc ordinal w c w1 r :
  getHTTPClient lib tdc tc w = Ok (Some c, None) w1 ->
  (newRequestErr lib "POST" (getBaseURL tdc tc ordinal +:+ "/info") = None ->
   network w c {| Method := "POST"; URL := getBaseURL tdc tc ordinal +:+ "/info" |}
   = inl r ->
   exists res st w',
     GetInfo lib tdc tc ordinal w = Ok res w'
     /\ bodies w' = bodies w ++ [st] /\ closed st = true)
  /\ (newRequestErr lib "GET" (getBaseURL tdc tc ordinal +:+ "/settings") = None ->
      network w c {| Method := "GET";
                     URL := getBaseURL tdc tc ordinal +:+ "/settings" |}
      = inl r ->
      exists res st w',
        GetSettings lib tdc tc ordinal w = Ok res w'
        /\ bodies w' = bodies w ++ [st] /\ closed st = true)
  /\ (newRequestErr lib "GET" (getBaseURL tdc tc ordinal +:+ "/status") = None ->
      network w c {| Method := "GET";
                     URL := getBaseURL tdc tc ordinal +:+ "/status" |}
      = inl r ->
      wireStatus r < 400 ->
      exists res st w',
        GetHealth lib tdc tc ordinal w = Ok res w'
        /\ bodies w' = bodies w ++ [st] /\ closed st = true).
Proof.
  intros Hc. destruct (client_frame _ _ _ _ _ Hc) as (Hn & _ & Hb).
  rewrite GetHealth_unfold, GetInfo_unfold, GetSettings_unfold, Hc.
  rewrite <- Hn, <- Hb. split; [|split].
  - intros Hreq Hnet.
    destruct (fetchJSON_answered (UnmarshalDBInfo lib) _ _ _ _ _ Hreq Hnet)
      as (st & w' & Hf & Hbs & Hcl & _). rewrite Hf. eauto 6.
  - intros Hreq Hnet.
    destruct (fetchJSON_answered (UnmarshalConfig lib) _ _ _ _ _ Hreq Hnet)
      as (st & w' & Hf & Hbs & Hcl & _). rewrite Hf. eauto 6.
  - intros Hreq Hnet Hlt.
    destruct (getBodyOK_answered _ _ _ _ Hreq Hnet Hlt)
      as (st & w' & Hf & Hbs & Hcl & _). rewrite Hf.
    destruct (wireReadErr r); eauto 6.
Qed.

(** X17. What fails before an answer arrives is returned as it is by
    [GetInfo] and [GetSettings]: the error of [http.NewRequest], with
    nothing sent, and the error of the transport, with no body opened. *)
Theorem request_failures_propagate tdc tc ordinal w c w1 e :
  getHTTPClient lib tdc tc w = Ok (Some c, None) w1 ->
  (newRequestErr lib "POST" (getBaseURL tdc tc ordinal +:+ "/info") = Some e ->
   GetInfo lib tdc tc ordinal w = Ok (None, Some e) w1)
  /\ (newRequestErr lib "GET" (getBaseURL tdc tc ordinal +:+ "/settings") = Some e ->
      GetSettings lib tdc tc ordinal w = Ok (None, Some e) w1)
  /\ (newRequestErr lib "POST" (getBaseURL tdc tc ordinal +:+ "/info") = None ->
      network w c {| Method := "POST";
                     URL := getBaseURL tdc tc ordinal +:+ "/info" |} = inr e ->
      exists w', GetInfo lib tdc tc ordinal w = Ok (None, Some e) w'
                 /\ bodies w' = bodies w)
  /\ (newRequestErr lib "GET" (getBaseURL tdc tc ordinal +:+ "/settings") = None ->
      network w c {| Method := "GET";
                     URL := getBaseURL tdc tc ordinal +:+ "/settings" |} = inr e ->
      exists w', GetSettings lib tdc tc ordinal w = Ok (None, Some e) w'
                 /\ bodies w' = bodies w).
Proof.
  intros Hc. destruct (client_frame _ _ _ _ _ Hc) as (Hn & _ & Hb).
  rewrite GetInfo_unfold, GetSettings_unfold, Hc. rewrite <- Hn, <- Hb.
  repeat split.
  - intros Hreq. apply fetchJSON_rejected, Hreq.
  - intros Hreq. apply fetchJSON_rejected, Hreq.
  - intros Hreq Hnet. rewrite (fetchJSON_unanswered _ _ _ _ _ _ Hreq Hnet).
    eexists. split; reflexivity.
  - intros Hreq Hnet. rewrite (fetchJSON_unanswered _ _ _ _ _ _ Hreq Hnet).
    eexists. split; reflexivity.
Qed.

(** X18. On an answer with status 200, [GetSettings] returns the decoded
    settings with a nil error when the body is read and decodes; [GetInfo]
    and [GetSettings] return the error of the read when the body breaks off
    and the error of the decoder when the body does not decode, each as it
    is and without a payload. *)
Theorem ok_answers_are_decoded tdc tc ordinal w c w1 r :
  getHTTPClient lib tdc tc w = Ok (Some c, None) w1 ->
  wireStatus r = 200 ->
  (newRequestErr lib "GET" (getBaseURL tdc tc ordinal +:+ "/settings") = None ->
   network w c {| Method := "GET";
                  URL := getBaseURL tdc tc ordinal +:+ "/settings" |} = inl r ->
   exists w',
     GetSettings lib tdc tc ordinal w
     = Ok (match wireReadErr r with
           | Some e => (None, Some e)
           | None => match UnmarshalConfig lib (wireBody r) with
                     | inl cfg => (Some cfg, None)
                     | inr e => (None, Some e)
                     end
           end) w')
  /\ (newRequestErr lib "POST" (getBaseURL tdc tc ordinal +:+ "/info") = None ->
      network w c {| Method := "POST";
                     URL := getBaseURL tdc tc ordinal +:+ "/info" |} = inl r ->
      exists w',
        GetInfo lib tdc tc ordinal w
        = Ok (match wireReadErr r with
              | Some e => (None, Some e)
              | None => match UnmarshalDBInfo lib (wireBody r) with
                        | inl info => (Some info, None)
                        | inr e => (None, Some e)
                        end
              end) w').
Proof.
  intros Hc Hcode. destruct (client_frame _ _ _ _ _ Hc) as (Hn & _ & _).
  rewrite GetInfo_unfold, GetSettings_unfold, Hc. rewrite <- Hn.
  split; intros Hreq Hnet.
  - destruct (fetchJSON_answered (UnmarshalConfig lib) _ _ _ _ _ Hreq Hnet)
      as (st & w' & Hf & _).
    rewrite Hf. unfold fetchResult. rewrite Hcode. simpl.
    destruct (wireReadErr r); [eauto|].
    destruct (UnmarshalConfig lib (wireBody r)); eauto.
  - destruct (fetchJSON_answered (UnmarshalDBInfo lib) _ _ _ _ _ Hreq Hnet)
      as (st & w' & Hf & _).
    rewrite Hf. unfold fetchResult. rewrite Hcode. simpl.
    destruct (wireReadErr r); [eauto|].
    destruct (UnmarshalDBInfo lib (wireBody r)); eauto.
Qed.

End Effects.

Lemma getHTTPClient_client_shape_witness :
  Timeout demoTLSClient = timeout
  /\ (Transport demoTLSClient = None <-> IsTLSClusterEnabled (demoCluster true) = false)
  /\ secretGets (fetchedSecret demoLib "default" "demo-cluster-client-secret"
                   (demoNet (demoNetwork 200 [])))
     = secretGets (demoNet (demoNetwork 200 []))
       ++ (if IsTLSClusterEnabled (demoCluster true)
           then [(Namespace (tcMeta (demoCluster true)),
                  ClusterClientTLSSecretName demoLib
                    (Name (tcMeta (demoCluster true))))]
           else [])
  /\ requests (fetchedSecret demoLib "default" "demo-cluster-client-secret"
                 (demoNet (demoNetwork 200 [])))
     = requests (demoNet (demoNetwork 200 []))
  /\ bodies (fetchedSecret demoLib "default" "demo-cluster-client-secret"
               (demoNet (demoNetwork 200 [])))
     = bodies (demoNet (demoNetwork 200 [])).
Proof.
  apply (getHTTPClient_client_shape demoLib (demoControl secretNoCA)
           (demoCluster true) (demoNet (demoNetwork 200 []))).
  vm_compute. reflexivity.
Defined.

Lemma getHTTPClient_tls_client_witness :
  exists pool : CertPool demoLib,
    getHTTPClient demoLib (demoControl secretNoCA) (demoCluster true)
                  (demoNet (demoNetwork 200 []))
    = Ok (Some {| Timeout := timeout;
                  Transport :=
                    Some {| RootCAs := pool;
                            Certificates :=
                              [(list_byte_of_string "CERT",
                                list_byte_of_string "KEY")
                               : Certificate demoLib] |} |},
          None)
         (fetchedSecret demoLib (Namespace (tcMeta (demoCluster true)))
            (ClusterClientTLSSecretName demoLib (Name (tcMeta (demoCluster true))))
            (demoNet (demoNetwork 200 [])))
    /\ (forall ca, Data secretNoCA !! ServiceAccountRootCAKey = Some ca ->
          pool = AppendCertsFromPEM demoLib (NewCertPool demoLib) ca)
    /\ (Data secretNoCA !! ServiceAccountRootCAKey = None ->
        pool = AppendCertsFromPEM demoLib (NewCertPool demoLib) []).
Proof.
  apply (getHTTPClient_tls_client demoLib (demoControl secretNoCA)
           (demoCluster true) (demoNet (demoNetwork 200 [])) secretNoCA
           (list_byte_of_string "CERT") (list_byte_of_string "KEY")).
  - reflexivity.
  - reflexivity.
  - vm_compute. reflexivity.
  - vm_compute. reflexivity.
  - reflexivity.
Defined.

Lemma secret_store_error_propagates_witness :
  exists w',
    GetHealth demoLib demoNoStore (demoCluster true) 1
              (demoNet (demoNetwork 200 []))
    = Ok (false, Some demoForbidden) w'
    /\ GetInfo demoLib demoNoStore (demoCluster true) 1
               (demoNet (demoNetwork 200 []))
       = Ok (None, Some demoForbidden) w'
    /\ GetSettings demoLib demoNoStore (demoCluster true) 1
                   (demoNet (demoNetwork 200 []))
       = Ok (None, Some demoForbidden) w'
    /\ requests w' = requests (demoNet (demoNetwork 200 []))
    /\ length (secretGets w')
       = S (length (secretGets (demoNet (demoNetwork 200 [])))).
Proof.
  apply (secret_store_error_propagates demoLib demoNoStore (demoCluster true) 1
           (demoNet (demoNetwork 200 [])) demoForbidden); reflexivity.
Defined.

Lemma key_pair_error_is_fatal_witness :
  exists w',
    GetHealth demoLibBadKeys (demoControl secretNoCA) (demoCluster true) 1
              {| network := demoDown demoLibBadKeys; requests := [];
                 secretGets := []; bodies := [] |}
    = Ok (false,
          Some (keyPairError demoLibBadKeys (demoCluster true)
                  (ErrorString
                     "tls: failed to find any PEM data in certificate input")))
         w'.
Proof.
  destruct (key_pair_error_is_fatal demoLibBadKeys (demoControl secretNoCA)
              (demoCluster true) 1
              {| network := demoDown demoLibBadKeys; requests := [];
                 secretGets := []; bodies := [] |}
              secretNoCA (list_byte_of_string "CERT") (list_byte_of_string "KEY")
              (ErrorString "tls: failed to find any PEM data in certificate input")
              eq_refl eq_refl ltac:(vm_compute; reflexivity)
              ltac:(vm_compute; reflexivity) eq_refl)
    as (w' & Hh & _).
  exists w'. exact Hh.
Defined.

Lemma one_request_per_call_witness :
  exists res w',
    GetInfo demoLib (demoControl secretNoKey) (demoCluster false) 1
            (demoNet (demoDown demoLib)) = Ok res w'
    /\ requests w'
       = requests (demoNet (demoDown demoLib))
         ++ sentIf demoLib "POST"
              (getBaseURL (demoControl secretNoKey) (demoCluster false) 1
               +:+ "/info").
Proof.
  apply (one_request_per_call demoLib (demoControl secretNoKey)
           (demoCluster false) 1 (demoNet (demoDown demoLib)) plainClient
           (demoNet (demoDown demoLib)) eq_refl).
Defined.

Lemma health_and_info_disagree_witness :
  (exists w',
     GetHealth demoLib (demoControl secretNoKey) (demoCluster false) 1
               (demoNet (demoNetwork 204 [])) = Ok (true, None) w')
  /\ (exists w',
       GetInfo demoLib (demoControl secretNoKey) (demoCluster false) 1
               (demoNet (demoNetwork 204 []))
       = Ok (None, Some (statusError demoLib 204
                           (getBaseURL (demoControl secretNoKey)
                                       (demoCluster false) 1 +:+ "/info"))) w').
Proof.
  apply (health_and_info_disagree demoLib (demoControl secretNoKey)
           (demoCluster false) 1 (demoNet (demoNetwork 204 []))
           {| wireStatus := 204; wireBody := []; wireReadErr := None |});
    try reflexivity.
  discriminate.
Defined.

Lemma answered_bodies_are_closed_witness :
  exists res st w',
    GetInfo demoLib (demoControl secretNoKey) (demoCluster false) 1
            (demoNet (demoNetwork 500 [])) = Ok res w'
    /\ bodies w' = bodies (demoNet (demoNetwork 500 [])) ++ [st]
    /\ closed st = true.
Proof.
  apply (answered_bodies_are_closed demoLib (demoControl secretNoKey)
           (demoCluster false) 1 (demoNet (demoNetwork 500 [])) plainClient
           (demoNet (demoNetwork 500 []))
           {| wireStatus := 500; wireBody := []; wireReadErr := None |}
           eq_refl); reflexivity.
Defined.

Lemma request_failures_propagate_witness :
  exists w',
    GetInfo demoLib (demoControl secretNoKey) (demoCluster false) 1
            (demoNet (demoDown demoLib)) = Ok (None, Some demoRefused) w'
    /\ bodies w' = bodies (demoNet (demoDown demoLib)).
Proof.
  apply (request_failures_propagate demoLib (demoControl secretNoKey)
           (demoCluster false) 1 (demoNet (demoDown demoLib)) plainClient
           (demoNet (demoDown demoLib)) demoRefused eq_refl); reflexivity.
Defined.

Lemma ok_answers_are_decoded_witness :
  exists w',
    GetSettings demoLib (demoControl secretNoKey) (demoCluster false) 1
                (demoNet (demoNetwork 200 ownerBody))
    = Ok (Some ownerBody, None) w'.
Proof.
  apply (ok_answers_are_decoded demoLib (demoControl secretNoKey)
           (demoCluster false) 1 (demoNet (demoNetwork 200 ownerBody))
           plainClient (demoNet (demoNetwork 200 ownerBody))
           {| wireStatus := 200; wireBody := ownerBody; wireReadErr := None |}
           eq_refl eq_refl); reflexivity.
Defined.

End ClientExtras.
